(** * go-webserver: graceful shutdown bookkeeping

    A shallow embedding of the [webserver] package: the shutdown-aware
    listener ([WebServerListener]: [Listen], [Listening], [Accept], [Close])
    and the server ([WebServer]: [New], [Listen], [Serve], [Shutdown],
    [RoutineStarted], [RoutineFinished], [connStateTracker]).

    Go methods mutate their receiver and may panic; they are embedded as
    computations of a small state monad with panics and a log of the calls
    that leave the package (to the wrapped [net.Listener], to the user's
    [ConnState] hook, to the Go scheduler).  What an external call returns is
    an argument of the embedded method. *)

From Stdlib Require Import ZArith Lia List Bool String.
From stdpp Require Import base decidable option list gmap fin_maps.
Import ListNotations.
Local Open Scope Z_scope.

(** ** Go values shared by both files *)

(** A connection ([net.Conn]) is known to the package by identity only: it is
    a key of the [idleConns] map. *)
Definition Conn : Type := positive.

(** [error] values.  [errors.New] gives an [errorString]; the two struct types
    of the package embed the error they wrap.  A [nil] error is [None]. *)
Inductive error : Type :=
| errorString (msg : string)
| ErrListenerClosed (err : error)
| ErrGracefulShutdown (err : error).

(** The type assertion [err.(ErrListenerClosed)]: the dynamic type of the
    value itself, not of what it wraps. *)
Definition isErrListenerClosed (e : error) : bool :=
  match e with ErrListenerClosed _ => true | _ => false end.

(** The wrapped [net.Listener] as the package sees it: what it was bound to,
    and whether its [Close] has been called. *)
Record NetListener : Type := mkNetListener {
  nl_network : string;
  nl_laddr : string;
  nl_tls : bool;
  nl_closed : bool
}.

(** [http.ConnState] (Go 1.3). *)
Inductive HttpConnState : Type :=
| StateNew | StateActive | StateIdle | StateHijacked | StateClosed.

(** Calls that leave the package, in program order. *)
Inductive Effect : Type :=
| StoreListening (v : Z)                      (* atomic.StoreInt32(&l.listening, v) *)
| NetAccept                                   (* l.Listener.Accept() *)
| NetClose                                    (* l.Listener.Close() *)
| NetListen (network laddr : string) (tls : bool)  (* net.Listen / tls.Listen *)
| SetKeepAlives (on : bool)                   (* s.Server.SetKeepAlivesEnabled(on) *)
| GoAcceptLoop                                (* go func() { ... }() in Serve *)
| UserConnState (c : Conn) (st : HttpConnState). (* s.ConnState(c, state) *)

(** ** The monad of Go methods *)

Inductive Outcome (A : Type) : Type :=
| Returns (a : A)
| Panics.
Arguments Returns {A} a.
Arguments Panics {A}.

Definition M (S A : Type) : Type := S -> Outcome (A * S * list Effect).

Definition ret {S A} (a : A) : M S A := fun s => Returns (a, s, []).

Definition bind {S A B} (m : M S A) (f : A -> M S B) : M S B :=
  fun s =>
    match m s with
    | Panics => Panics
    | Returns (a, s1, l1) =>
        match f a s1 with
        | Panics => Panics
        | Returns (b, s2, l2) => Returns (b, s2, l1 ++ l2)
        end
    end.

Definition get {S} : M S S := fun s => Returns (s, s, []).
Definition gets {S A} (f : S -> A) : M S A := fun s => Returns (f s, s, []).
Definition modify {S} (f : S -> S) : M S unit := fun s => Returns (tt, f s, []).
Definition emit {S} (e : Effect) : M S unit := fun s => Returns (tt, s, [e]).
Definition panic {S A} : M S A := fun _ => Panics.

(** Run a method of a field on that field ([s.listener.Close()]). *)
Definition zoom {S T A} (proj : S -> T) (upd : T -> S -> S) (m : M T A) : M S A :=
  fun s =>
    match m (proj s) with
    | Panics => Panics
    | Returns (a, t, l) => Returns (a, upd t s, l)
    end.

Declare Scope go_scope.
Delimit Scope go_scope with go.
Notation "'do' x <- m ; k" := (bind m (fun x => k))
  (at level 10, x name, m at level 100, k at level 200) : go_scope.
Notation "'run' m ; k" := (bind m (fun _ => k))
  (at level 10, m at level 100, k at level 200) : go_scope.
Local Open Scope go_scope.

(** Projections of an outcome. *)
Definition result {A S} (o : Outcome (A * S * list Effect)) : option A :=
  match o with Returns (a, _, _) => Some a | Panics => None end.
Definition state {A S} (o : Outcome (A * S * list Effect)) : option S :=
  match o with Returns (_, s, _) => Some s | Panics => None end.

(** ** listener.go *)

Module listener_go.

(** [type WebServerListener struct { net.Listener; listening int32 }].  The
    embedded interface is [nil] in the zero value. *)
Record WebServerListener : Type := mkWebServerListener {
  Listener : option NetListener;
  listening : Z
}.

Definition set_listening (v : Z) (l : WebServerListener) : WebServerListener :=
  {| Listener := Listener l; listening := v |}.

Definition set_closed (n : NetListener) : NetListener :=
  {| nl_network := nl_network n; nl_laddr := nl_laddr n;
     nl_tls := nl_tls n; nl_closed := true |}.

(** [Listen(network, laddr, tlsConfig)].  [hasTLS] is [tlsConfig != nil];
    [bindErr] is the error of [tls.Listen] / [net.Listen] ([None] on
    success).  Returns the new listener or the error; it is a function of
    the package, not a method, so it runs in any state. *)
Definition Listen {S} (network laddr : string) (hasTLS : bool) (bindErr : option error)
  : M S (WebServerListener + error) :=
  run emit (NetListen network laddr hasTLS);
  match bindErr with
  | Some err => ret (inr err)
  | None =>
      let listener := {| nl_network := network; nl_laddr := laddr;
                         nl_tls := hasTLS; nl_closed := false |} in
      ret (inl {| Listener := Some listener; listening := 1 |})
  end.

(** [atomic.LoadInt32(&l.listening) != 0] on a listener value. *)
Definition isListening (l : WebServerListener) : bool := negb (listening l =? 0).

(** [Listening()]. *)
Definition Listening : M WebServerListener bool := gets isListening.

(** A call of a method of the embedded [net.Listener]; on the [nil]
    interface it panics. *)
Definition netAccept (res : option Conn * option error)
  : M WebServerListener (option Conn * option error) :=
  do l <- get;
  match Listener l with
  | None => panic
  | Some _ => run emit NetAccept; ret res
  end.

Definition netClose (res : option error) : M WebServerListener (option error) :=
  do l <- get;
  match Listener l with
  | None => panic
  | Some n =>
      run modify (fun l => {| Listener := Some (set_closed n); listening := listening l |});
      run emit NetClose;
      ret res
  end.

Definition StoreInt32_listening (v : Z) : M WebServerListener unit :=
  run modify (set_listening v); emit (StoreListening v).

(** [Accept()]; [res] is what [l.Listener.Accept()] returns. *)
Definition Accept (res : option Conn * option error)
  : M WebServerListener (option Conn * option error) :=
  do r <- netAccept res;
  let '(conn, err) := r in
  match err with
  | Some e =>
      do b <- Listening;
      if negb b then ret (None, Some (ErrListenerClosed e))
      else ret (conn, err)
  | None => ret (conn, err)
  end.

(** [Close()]; [res] is what [l.Listener.Close()] returns. *)
Definition Close (res : option error) : M WebServerListener (option error) :=
  do b <- Listening;
  if negb b then ret None
  else run StoreInt32_listening 0; netClose res.

(** A listener that answers [Listening()] with true wraps a real
    [net.Listener]: every value the package builds satisfies it ([New] builds
    the zero value, [Listen] sets both fields). *)
Definition wf (l : WebServerListener) : Prop :=
  isListening l = true -> Listener l <> None.

(** Calls a client of the listener can make, with the results of the wrapped
    listener. *)
Inductive Call : Type :=
| CallListening
| CallAccept (res : option Conn * option error)
| CallClose (res : option error).

Definition call (c : Call) : M WebServerListener unit :=
  match c with
  | CallListening => run Listening; ret tt
  | CallAccept res => run Accept res; ret tt
  | CallClose res => run Close res; ret tt
  end.

Fixpoint callAll (cs : list Call) : M WebServerListener unit :=
  match cs with
  | [] => ret tt
  | c :: cs' => run call c; callAll cs'
  end.

(** The values of the flag after each call of a sequence; [None] when a call
    panics. *)
Fixpoint flags (cs : list Call) (l : WebServerListener) : option (list bool) :=
  match cs with
  | [] => Some []
  | c :: cs' =>
      match call c l with
      | Panics => None
      | Returns (_, l', _) =>
          match flags cs' l' with
          | Some bs => Some (isListening l' :: bs)
          | None => None
          end
      end
  end.

(** Number of steps of a sequence of flag values that go from [a] to [b]. *)
Fixpoint changes (a b : bool) (prev : bool) (bs : list bool) : nat :=
  match bs with
  | [] => 0
  | x :: bs' =>
      ((if (Bool.eqb prev a && Bool.eqb x b)%bool then 1 else 0)
       + changes a b x bs')%nat
  end.

End listener_go.

(** ** server.go *)

Module server_go.
Import listener_go.

Definition errListenerAlreadyCreated : error :=
  errorString "A listener has already been created.".
Definition errListenerNotYetCreated : error :=
  errorString "A listener has not yet been created.".

(** The fields of [http.Server] the package touches.  [Server_ConnState] is
    true once [s.Server.ConnState] has been set to [s.connStateTracker];
    [keepAlives] is what [SetKeepAlivesEnabled] sets; [TLSConfig] holds the
    certificates when it is not [nil]. *)
Record HttpServer : Type := mkHttpServer {
  Addr : string;
  TLSConfig : option (list string);
  Server_ConnState : bool;
  keepAlives : bool
}.

(** [type WebServer struct].  [ConnState] is true when the user has set a
    hook; [wg] is the counter of the [sync.WaitGroup]; [idleConns] is a map
    to [struct{}], a set of keys. *)
Record WebServer : Type := mkWebServer {
  Server : HttpServer;
  ConnState : bool;
  listener : WebServerListener;
  wg : Z;
  idleConns : gset Conn
}.

Definition set_Server (h : HttpServer) (s : WebServer) : WebServer :=
  {| Server := h; ConnState := ConnState s; listener := listener s;
     wg := wg s; idleConns := idleConns s |}.
Definition set_listener (l : WebServerListener) (s : WebServer) : WebServer :=
  {| Server := Server s; ConnState := ConnState s; listener := l;
     wg := wg s; idleConns := idleConns s |}.
Definition set_wg (n : Z) (s : WebServer) : WebServer :=
  {| Server := Server s; ConnState := ConnState s; listener := listener s;
     wg := n; idleConns := idleConns s |}.
Definition set_idleConns (m : gset Conn) (s : WebServer) : WebServer :=
  {| Server := Server s; ConnState := ConnState s; listener := listener s;
     wg := wg s; idleConns := m |}.

Definition set_Addr (a : string) (h : HttpServer) : HttpServer :=
  {| Addr := a; TLSConfig := TLSConfig h;
     Server_ConnState := Server_ConnState h; keepAlives := keepAlives h |}.
Definition set_Server_ConnState (b : bool) (h : HttpServer) : HttpServer :=
  {| Addr := Addr h; TLSConfig := TLSConfig h;
     Server_ConnState := b; keepAlives := keepAlives h |}.
Definition set_keepAlives (b : bool) (h : HttpServer) : HttpServer :=
  {| Addr := Addr h; TLSConfig := TLSConfig h;
     Server_ConnState := Server_ConnState h; keepAlives := b |}.

(** [New()]. *)
Definition New : WebServer :=
  {| Server := {| Addr := EmptyString; TLSConfig := None;
                  Server_ConnState := false; keepAlives := true |};
     ConnState := false;
     listener := {| Listener := None; listening := 0 |};
     wg := 0;
     idleConns := ∅ |}.

(** A method of [s.listener]. *)
Definition onListener {A} (m : M WebServerListener A) : M WebServer A :=
  zoom listener set_listener m.

(** [s.Server.SetKeepAlivesEnabled(on)]. *)
Definition SetKeepAlivesEnabled (on : bool) : M WebServer unit :=
  run modify (fun s => set_Server (set_keepAlives on (Server s)) s);
  emit (SetKeepAlives on).

(** [sync.WaitGroup]: [Add] panics when the counter becomes negative;
    [Done] is [Add(-1)]. *)
Definition wg_Add (delta : Z) : M WebServer unit :=
  do s <- get;
  if wg s + delta <? 0 then panic else modify (set_wg (wg s + delta)).

Definition wg_Done : M WebServer unit := wg_Add (-1).

(** [s.Server.TLSConfig != nil]. *)
Definition hasTLS (s : WebServer) : bool :=
  match TLSConfig (Server s) with Some _ => true | None => false end.

(** [Listen(addr)]; [bindErr] is the error of the bind. *)
Definition Listen (addr : string) (bindErr : option error) : M WebServer (option error) :=
  do b <- onListener Listening;
  if b then ret (Some errListenerAlreadyCreated)
  else
    do s <- get;
    do r <- listener_go.Listen "tcp" addr (hasTLS s) bindErr;
    match r with
    | inr err => ret (Some err)
    | inl l =>
        run modify (set_listener l);
        run modify (fun s => set_Server (set_Addr addr (Server s)) s);
        ret None
    end.

(** [Serve(errChan)], up to its return.  The goroutine it starts has, when
    [Serve] returns, set [s.Server.ConnState] and closed [servingChan]; what
    the goroutine does next is [AcceptLoop] below. *)
Definition Serve : M WebServer (option error) :=
  do b <- onListener Listening;
  if negb b then ret (Some errListenerNotYetCreated)
  else
    run emit GoAcceptLoop;
    run modify (fun s => set_Server (set_Server_ConnState true (Server s)) s);
    ret None.

(** [Shutdown()]; [closeErr] is what the wrapped listener's [Close]
    returns. *)
Definition Shutdown (closeErr : option error) : M WebServer unit :=
  do b <- onListener Listening;
  if negb b then ret tt
  else
    run SetKeepAlivesEnabled false;
    run onListener (Close closeErr);
    ret tt.

Definition RoutineStarted : M WebServer unit := wg_Add 1.
Definition RoutineFinished : M WebServer unit := wg_Done.

(** [connStateTracker(c, state)]. *)
Definition connStateTracker (c : Conn) (st : HttpConnState) : M WebServer unit :=
  run (match st with
       | StateNew | StateActive => wg_Add 1
       | StateIdle =>
           do idle <- gets (fun s => bool_decide (c ∈ idleConns s));
           run (if negb idle then wg_Done else ret tt);
           run modify (fun s => set_idleConns ({[c]} ∪ idleConns s) s);
           wg_Done
       | StateHijacked | StateClosed =>
           do idle <- gets (fun s => bool_decide (c ∈ idleConns s));
           if idle then modify (fun s => set_idleConns (idleConns s ∖ {[c]}) s)
           else wg_Add (-2)
       end);
  do hook <- gets ConnState;
  if hook then emit (UserConnState c st) else ret tt.

(** What reaches the tracker and the registration API, in the order it is
    processed. *)
Inductive Event : Type :=
| Transition (c : Conn) (st : HttpConnState)
| Started
| Finished.

Definition handle (e : Event) : M WebServer unit :=
  match e with
  | Transition c st => connStateTracker c st
  | Started => RoutineStarted
  | Finished => RoutineFinished
  end.

Fixpoint process (evs : list Event) : M WebServer unit :=
  match evs with
  | [] => ret tt
  | e :: evs' => run handle e; process evs'
  end.

(** The transitions of one connection, in order. *)
Fixpoint transitions (c : Conn) (evs : list Event) : list HttpConnState :=
  match evs with
  | [] => []
  | Transition c' st :: evs' =>
      if decide (c' = c) then st :: transitions c evs' else transitions c evs'
  | _ :: evs' => transitions c evs'
  end.

(** *** The goroutine started by [Serve]

    After the handshake the goroutine runs
    [err := s.Server.Serve(s.listener)], then, when [err] is an
    [ErrListenerClosed], [s.wg.Wait()] and [err = ErrGracefulShutdown{err}],
    and last [errChan <- err].  It shares the counter with the connection
    goroutines, so it is embedded as a transition system: [pc] is where the
    goroutine stands, [err] its local variable, [wgNow] the counter and
    [errChan] what has been received from the channel so far. *)
Inductive Pc : Type := InServe | InWait | AtSend | Returned.

Record AcceptLoop : Type := mkAcceptLoop {
  pc : Pc;
  err : option error;
  wgNow : Z;
  errChan : list error
}.

Inductive Step : Type :=
| ServeReturns (e : error)   (* s.Server.Serve returns e; it is never nil *)
| WaitReturns                (* s.wg.Wait() returns: the counter is zero *)
| Received                   (* errChan <- err is received *)
| Elsewhere (n : Z).         (* other goroutines move the counter to n *)

Definition step (a : Step) (g : AcceptLoop) : option AcceptLoop :=
  match a, pc g with
  | ServeReturns e, InServe =>
      Some {| pc := if isErrListenerClosed e then InWait else AtSend;
              err := Some e; wgNow := wgNow g; errChan := errChan g |}
  | WaitReturns, InWait =>
      if wgNow g =? 0 then
        Some {| pc := AtSend; err := ErrGracefulShutdown <$> err g;
                wgNow := wgNow g; errChan := errChan g |}
      else None
  | Received, AtSend =>
      match err g with
      | Some e => Some {| pc := Returned; err := err g; wgNow := wgNow g;
                          errChan := errChan g ++ [e] |}
      | None => None
      end
  | Elsewhere n, _ =>
      if 0 <=? n then
        Some {| pc := pc g; err := err g; wgNow := n; errChan := errChan g |}
      else None
  | _, _ => None
  end.

Fixpoint steps (l : list Step) (g : AcceptLoop) : option AcceptLoop :=
  match l with
  | [] => Some g
  | a :: l' => match step a g with Some g' => steps l' g' | None => None end
  end.

(** The goroutine as [Serve] leaves it, with the counter at [n]. *)
Definition started (n : Z) : AcceptLoop :=
  {| pc := InServe; err := None; wgNow := n; errChan := [] |}.

(** The steps of the goroutine itself. *)
Definition own (a : Step) : bool :=
  match a with Elsewhere _ => false | _ => true end.

Fixpoint ownSteps (l : list Step) : list Step :=
  match l with
  | [] => []
  | a :: l' => if own a then a :: ownSteps l' else ownSteps l'
  end.

(** What the goroutine sends for the error [Serve] returned. *)
Definition outcome (e : error) : error :=
  if isErrListenerClosed e then ErrGracefulShutdown e else e.

(** *** Calls of the public API, for sequences of calls *)
Inductive Api : Type :=
| ApiListen (addr : string) (bindErr : option error)
| ApiServe
| ApiShutdown (closeErr : option error)
| ApiEvent (e : Event).

Definition api (a : Api) : M WebServer unit :=
  match a with
  | ApiListen addr bindErr => run Listen addr bindErr; ret tt
  | ApiServe => run Serve; ret tt
  | ApiShutdown closeErr => Shutdown closeErr
  | ApiEvent e => handle e
  end.

Fixpoint calls (l : list Api) : M WebServer unit :=
  match l with
  | [] => ret tt
  | a :: l' => run api a; calls l'
  end.

Definition bindSucceeds (a : Api) : bool :=
  match a with ApiListen _ None => true | _ => false end.

End server_go.

(** ** Vocabulary of the properties *)

Module props.
Import listener_go server_go.

(** The rule of the tracker as a table: previous idle membership and new
    state give the change of the counter and the new membership. *)
Definition table (wasIdle : bool) (st : HttpConnState) : Z * bool :=
  match st, wasIdle with
  | StateNew, _ | StateActive, _ => (1, wasIdle)
  | StateIdle, false => (-2, true)
  | StateIdle, true => (-1, true)
  | StateHijacked, true | StateClosed, true => (0, false)
  | StateHijacked, false | StateClosed, false => (-2, false)
  end.

(** [s.wg.Wait()] returned somewhere in [l], at a point where the counter
    was zero. *)
Definition waitedForZero (n : Z) (l : list Step) : Prop :=
  exists l1 l2 g1, l = l1 ++ WaitReturns :: l2
                   /\ steps l1 (started n) = Some g1 /\ wgNow g1 = 0.

(** Where the goroutine stands after the steps [l], by program point. *)
Definition loopInv (n : Z) (l : list Step) (g : AcceptLoop) : Prop :=
  match pc g with
  | InServe => ownSteps l = [] /\ err g = None /\ errChan g = []
  | InWait =>
      exists e, ownSteps l = [ServeReturns e] /\ isErrListenerClosed e = true
                /\ err g = Some e /\ errChan g = []
  | AtSend =>
      exists e, errChan g = [] /\ err g = Some (outcome e)
                /\ if isErrListenerClosed e
                   then ownSteps l = [ServeReturns e; WaitReturns]
                        /\ waitedForZero n l
                   else ownSteps l = [ServeReturns e]
  | Returned =>
      exists e, errChan g = [outcome e]
                /\ if isErrListenerClosed e
                   then ownSteps l = [ServeReturns e; WaitReturns; Received]
                        /\ waitedForZero n l
                   else ownSteps l = [ServeReturns e; Received]
  end.

(** The idle set with the membership of [c] set to [b]. *)
Definition withMembership (b : bool) (c : Conn) (m : gset Conn) : gset Conn :=
  if b then {[c]} ∪ m else m ∖ {[c]}.











(** An [StateIdle] has been processed and no terminal state after it. *)
Definition idledAndOpen (tr : list HttpConnState) : Prop :=
  exists pre post, (tr = pre ++ StateIdle :: post)
                   /\ (StateClosed ∉ post) /\ (StateHijacked ∉ post).

(** The last [StateIdle] of a connection is its most recent state of
    note: no [StateActive], [StateHijacked] or [StateClosed] after it. *)
Definition idleNow (tr : list HttpConnState) : Prop :=
  exists pre post, (tr = pre ++ StateIdle :: post)
                   /\ (StateActive ∉ post) /\ (StateClosed ∉ post)
                   /\ (StateHijacked ∉ post).

(** [idledAndOpen] by one pass over the transitions, from the membership
    [b] before them. *)
Fixpoint idleMark (b : bool) (tr : list HttpConnState) : bool :=
  match tr with
  | [] => b
  | StateIdle :: tr' => idleMark true tr'
  | StateHijacked :: tr' | StateClosed :: tr' => idleMark false tr'
  | _ :: tr' => idleMark b tr'
  end.

End props.

(** ** server.go: the TLS configuration *)

Module certificates.
Import listener_go server_go.

(** The cipher suites [DefaultTLSConfiguration] names, constants of
    [crypto/tls]. *)
Inductive CipherSuite : Type :=
| TLS_ECDHE_ECDSA_WITH_AES_128_GCM_SHA256
| TLS_ECDHE_RSA_WITH_AES_128_GCM_SHA256
| TLS_ECDHE_ECDSA_WITH_AES_128_CBC_SHA
| TLS_ECDHE_RSA_WITH_AES_128_CBC_SHA
| TLS_ECDHE_RSA_WITH_3DES_EDE_CBC_SHA
| TLS_RSA_WITH_AES_128_CBC_SHA
| TLS_RSA_WITH_3DES_EDE_CBC_SHA.

(** The fields of [tls.Config] the package sets.  A certificate is known by
    identity, as in [TLSConfig] of [HttpServer]; [NameToCertificate] is the
    index that [BuildNameToCertificate] fills. *)
Record TlsConfig : Type := mkTlsConfig {
  Certificates : list string;
  NameToCertificate : list (string * string);
  NextProtos : list string;
  CipherSuites : list CipherSuite;
  PreferServerCipherSuites : bool;
  SessionTicketsDisabled : bool
}.

(** [DefaultTLSConfiguration()]. *)
Definition DefaultTLSConfiguration : TlsConfig :=
  {| Certificates := [];
     NameToCertificate := [];
     NextProtos := ["http/1.1"%string];
     CipherSuites := [TLS_ECDHE_ECDSA_WITH_AES_128_GCM_SHA256;
                      TLS_ECDHE_RSA_WITH_AES_128_GCM_SHA256;
                      TLS_ECDHE_ECDSA_WITH_AES_128_CBC_SHA;
                      TLS_ECDHE_RSA_WITH_AES_128_CBC_SHA;
                      TLS_ECDHE_RSA_WITH_3DES_EDE_CBC_SHA;
                      TLS_RSA_WITH_AES_128_CBC_SHA;
                      TLS_RSA_WITH_3DES_EDE_CBC_SHA];
     PreferServerCipherSuites := true;
     SessionTicketsDisabled := false |}.

Definition set_Certificates (cs : list string) (c : TlsConfig) : TlsConfig :=
  {| Certificates := cs; NameToCertificate := NameToCertificate c;
     NextProtos := NextProtos c; CipherSuites := CipherSuites c;
     PreferServerCipherSuites := PreferServerCipherSuites c;
     SessionTicketsDisabled := SessionTicketsDisabled c |}.

Definition set_NameToCertificate (ix : list (string * string)) (c : TlsConfig)
  : TlsConfig :=
  {| Certificates := Certificates c; NameToCertificate := ix;
     NextProtos := NextProtos c; CipherSuites := CipherSuites c;
     PreferServerCipherSuites := PreferServerCipherSuites c;
     SessionTicketsDisabled := SessionTicketsDisabled c |}.

Section WithIndex.

(** What [BuildNameToCertificate] of [crypto/tls] computes from the
    certificates of a configuration. *)
Variable index : list string -> list (string * string).

(** The methods below touch [s.Server.TLSConfig] only; they run on that
    pointer, [None] when it is [nil]. *)

(** [c.BuildNameToCertificate()]. *)
Definition BuildNameToCertificate : M (option TlsConfig) unit :=
  do cfg <- get;
  match cfg with
  | None => panic
  | Some c => modify (fun _ => Some (set_NameToCertificate (index (Certificates c)) c))
  end.

(** [addTLSCert(cert)]. *)
Definition addTLSCert (cert : string) : M (option TlsConfig) unit :=
  do cfg <- get;
  run (match cfg with
       | None => modify (fun _ => Some DefaultTLSConfiguration)
       | Some _ => ret tt
       end);
  do cfg <- get;
  run (match cfg with
       | None => panic
       | Some c => modify (fun _ => Some (set_Certificates (Certificates c ++ [cert]) c))
       end);
  BuildNameToCertificate.

(** [AddTLSCertificate(certPEMBlock, keyPEMBlock)]; [parsed] is what
    [tls.X509KeyPair] returns for the two blocks. *)
Definition AddTLSCertificate (parsed : string + error)
  : M (option TlsConfig) (option error) :=
  match parsed with
  | inr err => ret (Some err)
  | inl cert => run addTLSCert cert; ret None
  end.

(** [AddTLSCertificateFromFile(certFile, keyFile)]; [loaded] is what
    [tls.LoadX509KeyPair] returns for the two paths. *)
Definition AddTLSCertificateFromFile (loaded : string + error)
  : M (option TlsConfig) (option error) :=
  match loaded with
  | inr err => ret (Some err)
  | inl cert => run addTLSCert cert; ret None
  end.

(** One call of either method. *)
Inductive Add : Type :=
| FromBlocks (parsed : string + error)
| FromFiles (loaded : string + error).

Definition add (a : Add) : M (option TlsConfig) (option error) :=
  match a with
  | FromBlocks parsed => AddTLSCertificate parsed
  | FromFiles loaded => AddTLSCertificateFromFile loaded
  end.

(** Calls in a row; the errors they return, in order. *)
Fixpoint addAll (l : list Add) : M (option TlsConfig) (list (option error)) :=
  match l with
  | [] => ret []
  | a :: l' =>
      do e <- add a;
      do es <- addAll l';
      ret (e :: es)
  end.

End WithIndex.

(** What a call was given. *)
Definition given (a : Add) : string + error :=
  match a with FromBlocks r | FromFiles r => r end.

(** The certificates of the calls that succeed, and the errors of all. *)
Fixpoint accepted (l : list Add) : list string :=
  match l with
  | [] => []
  | a :: l' =>
      match given a with
      | inl cert => cert :: accepted l'
      | inr _ => accepted l'
      end
  end.

Definition refusal (a : Add) : option error :=
  match given a with inl _ => None | inr err => Some err end.

(** The configuration with the certificates [certs] appended and the index
    rebuilt by [index]; on a [nil] configuration the default one comes
    first.  With no certificate the configuration is left as it is. *)
Definition extended (index : list string -> list (string * string))
    (certs : list string) (cfg : option TlsConfig) : option TlsConfig :=
  match certs with
  | [] => cfg
  | _ =>
      let c := default DefaultTLSConfiguration cfg in
      Some (set_NameToCertificate (index (Certificates c ++ certs))
              (set_Certificates (Certificates c ++ certs) c))
  end.

(** An index for examples: every certificate under one name, its own. *)
Definition oneName (certs : list string) : list (string * string) :=
  map (fun cert => (cert, cert)) certs.

(** The server of [server_go] whose [s.Server.TLSConfig] is [cfg]: that
    record keeps the certificates of the configuration. *)
Definition set_TLSConfig (t : option (list string)) (h : HttpServer) : HttpServer :=
  {| Addr := Addr h; TLSConfig := t;
     Server_ConnState := Server_ConnState h; keepAlives := keepAlives h |}.

Definition withTLSConfig (cfg : option TlsConfig) (s : WebServer) : WebServer :=
  set_Server (set_TLSConfig (Certificates <$> cfg) (Server s)) s.

End certificates.

(** ** Vocabulary of the properties of runs *)

Module traces.
Import listener_go server_go.

(** Whether the server listens after a sequence of calls: a bind that
    succeeds turns it on, a [Shutdown] turns it off. *)
Fixpoint listeningAfter (b : bool) (cs : list Api) : bool :=
  match cs with
  | [] => b
  | ApiListen _ None :: cs' => listeningAfter true cs'
  | ApiShutdown _ :: cs' => listeningAfter false cs'
  | _ :: cs' => listeningAfter b cs'
  end.

(** Every [NetClose] of a log comes after a [NetListen] with no other
    [NetClose] between them; [bound] says whether a [NetListen] is pending
    at the start. *)
Fixpoint closesFollowBinds (bound : bool) (eff : list Effect) : bool :=
  match eff with
  | [] => true
  | NetListen _ _ _ :: eff' => closesFollowBinds true eff'
  | NetClose :: eff' => bound && closesFollowBinds false eff'
  | _ :: eff' => closesFollowBinds bound eff'
  end.

(** Whether a [NetListen] is pending at the end of a log. *)
Fixpoint pendingBind (bound : bool) (eff : list Effect) : bool :=
  match eff with
  | [] => bound
  | NetListen _ _ _ :: eff' => pendingBind true eff'
  | NetClose :: eff' => pendingBind false eff'
  | _ :: eff' => pendingBind bound eff'
  end.

Definition isNetClose (e : Effect) : bool :=
  match e with NetClose => true | _ => false end.
Definition isNetAccept (e : Effect) : bool :=
  match e with NetAccept => true | _ => false end.
Definition isStore (e : Effect) : bool :=
  match e with StoreListening _ => true | _ => false end.
Definition isCallAccept (c : Call) : bool :=
  match c with CallAccept _ => true | _ => false end.
Definition isKeepAlivesOn (e : Effect) : bool :=
  match e with SetKeepAlives true => true | _ => false end.

(** How many elements of a list pass a test. *)
Fixpoint count {A} (f : A -> bool) (l : list A) : nat :=
  match l with
  | [] => 0
  | x :: l' => ((if f x then 1 else 0) + count f l')%nat
  end.

(** The calls of the user's hook that a run of events makes when the hook
    is set. *)
Fixpoint hookCalls (evs : list Event) : list Effect :=
  match evs with
  | [] => []
  | Transition c st :: evs' => UserConnState c st :: hookCalls evs'
  | _ :: evs' => hookCalls evs'
  end.


End traces.

(** ** The listener *)

Section Listener.
Import listener_go.

Ltac go_unfold :=
  unfold Close, Accept, Listening, StoreInt32_listening, netClose, netAccept,
    call, bind, ret, get, gets, modify, emit, panic in *.

(** [Accept] on a listener that wraps a [net.Listener]. *)
Lemma Accept_run (l : WebServerListener) (n : NetListener)
    (conn : option Conn) (err : option error) :
  Listener l = Some n ->
  Accept (conn, err) l =
    Returns (match err with
             | Some e => if isListening l then (conn, err)
                         else (None, Some (ErrListenerClosed e))
             | None => (conn, err)
             end, l, [NetAccept]).
Proof.
  intros Hn. go_unfold. rewrite Hn. cbn.
  destruct err as [e|]; cbn; [|reflexivity].
  destruct (isListening l); reflexivity.
Qed.

(** [Close] on a listener that is not listening. *)
Lemma Close_not_listening (l : WebServerListener) (res : option error) :
  isListening l = false -> Close res l = Returns (None, l, []).
Proof.
  intros Hl. go_unfold. rewrite Hl. reflexivity.
Qed.

(** [Close] on a listening listener that wraps a [net.Listener]. *)
Lemma Close_listening (l : WebServerListener) (n : NetListener) (res : option error) :
  Listener l = Some n -> isListening l = true ->
  Close res l =
    Returns (res, {| Listener := Some (set_closed n); listening := 0 |},
             [StoreListening 0; NetClose]).
Proof.
  intros Hn Hl. go_unfold. rewrite Hl. cbn.
  rewrite Hn. reflexivity.
Qed.

(** No call turns the flag back on, and no call panics on a listener that
    wraps a [net.Listener]. *)
Lemma call_keeps_closed (c : Call) (l : WebServerListener) :
  Listener l <> None ->
  exists l' eff, call c l = Returns (tt, l', eff)
    /\ Listener l' <> None
    /\ (isListening l = false -> l' = l).
Proof.
  intros Hn. destruct (Listener l) as [n|] eqn:En; [clear Hn|congruence].
  assert (Hl : Listener l <> None) by congruence.
  destruct c as [|[conn err]|res]; unfold call, bind.
  - exists l, []. cbn. auto.
  - rewrite (Accept_run l n conn err En). exists l, [NetAccept]. cbn. auto.
  - destruct (isListening l) eqn:El.
    + rewrite (Close_listening l n res En El). eexists _, _. cbn.
      split; [reflexivity|]. split; [discriminate|discriminate].
    + rewrite (Close_not_listening l res El). exists l, []. cbn. auto.
Qed.

Lemma callAll_closed (cs : list Call) (l : WebServerListener) :
  Listener l <> None -> isListening l = false ->
  state (callAll cs l) = Some l.
Proof.
  intros Hn Hl. induction cs as [|c cs IH]; [reflexivity|].
  cbn [callAll]. unfold bind.
  destruct (call_keeps_closed c l Hn) as (l' & eff & Hc & _ & Hsame).
  specialize (Hsame Hl). subst l'. rewrite Hc.
  destruct (callAll cs l) as [[[[] l2] eff2]|]; cbn in *; congruence.
Qed.

Lemma Close_again (rs : list (option error)) (l : WebServerListener) :
  isListening l = false ->
  callAll (map CallClose rs) l = Returns (tt, l, []).
Proof.
  intros Hl. induction rs as [|r rs IH]; [reflexivity|].
  cbn [map callAll call]. unfold bind at 1 2.
  rewrite (Close_not_listening l r Hl). cbn. rewrite IH. reflexivity.
Qed.

(** The flag never rises, and falls at most once. *)
Lemma flags_one_way (cs : list Call) (l : WebServerListener) :
  Listener l <> None ->
  exists bs, flags cs l = Some bs
    /\ changes false true (isListening l) bs = 0%nat
    /\ (changes true false (isListening l) bs <= 1)%nat
    /\ (isListening l = false -> changes true false false bs = 0%nat).
Proof.
  revert l. induction cs as [|c cs IH]; intros l Hn.
  - exists []. cbn. auto with arith.
  - cbn [flags].
    destruct (call_keeps_closed c l Hn) as (l' & eff & Hc & Hn' & Hsame).
    rewrite Hc. destruct (IH l' Hn') as (bs & Hbs & Hup & Hdown & Hstay).
    rewrite Hbs. eexists. split; [reflexivity|].
    cbn [changes]. destruct (isListening l) eqn:El.
    + destruct (isListening l') eqn:El'; cbn.
      * rewrite Hup. repeat split; try assumption; discriminate.
      * rewrite Hup, (Hstay eq_refl). repeat split; try lia; discriminate.
    + rewrite (Hsame eq_refl) in *. rewrite El in *. cbn.
      rewrite Hup, (Hstay eq_refl). repeat split; lia.
Qed.

(** C4. When the wrapped listener's accept fails, [Accept] returns the
    error unchanged while the listener is listening, and an
    [ErrListenerClosed] that wraps it once it is not.  After a [Close], and
    whatever is called on the listener afterwards, every failing accept is
    reported as [ErrListenerClosed]. *)
Theorem Accept_failure_kind (l : WebServerListener) (n : NetListener)
    (conn : option Conn) (e : error) :
  Listener l = Some n ->
  Accept (conn, Some e) l =
    Returns (if isListening l then (conn, Some e)
             else (None, Some (ErrListenerClosed e)), l, [NetAccept])
  /\ (forall closeErr l1 cs l2 conn' e',
        state (Close closeErr l) = Some l1 ->
        state (callAll cs l1) = Some l2 ->
        result (Accept (conn', Some e') l2)
        = Some (None, Some (ErrListenerClosed e'))).
Proof.
  intros Hn. split; [apply (Accept_run l n conn (Some e) Hn)|].
  intros closeErr l1 cs l2 conn' e' Hclose Hcalls.
  assert (Listener l1 <> None /\ isListening l1 = false) as [Hn1 Hl1].
  { destruct (isListening l) eqn:El.
    - rewrite (Close_listening l n closeErr Hn El) in Hclose.
      cbn in Hclose. injection Hclose as <-. split; [discriminate|reflexivity].
    - rewrite (Close_not_listening l closeErr El) in Hclose.
      cbn in Hclose. injection Hclose as <-. split; congruence. }
  rewrite (callAll_closed cs l1 Hn1 Hl1) in Hcalls. injection Hcalls as <-.
  destruct (Listener l1) as [n1|] eqn:En1; [|congruence].
  rewrite (Accept_run l1 n1 conn' (Some e') En1), Hl1. reflexivity.
Qed.

Lemma Accept_failure_kind_witness :
  let l := {| Listener := Some (mkNetListener "tcp" ":44380" false false);
              listening := 1 |} in
  result (Accept (None, Some (errorString "use of closed network connection")) l)
    = Some (None, Some (errorString "use of closed network connection"))
  /\ (forall l1 l2,
        state (Close None l) = Some l1 ->
        state (callAll [CallListening; CallClose None] l1) = Some l2 ->
        result (Accept (None, Some (errorString "use of closed network connection")) l2)
        = Some (None, Some (ErrListenerClosed
                              (errorString "use of closed network connection")))).
Proof.
  intros l.
  destruct (Accept_failure_kind l (mkNetListener "tcp" ":44380" false false)
              None (errorString "use of closed network connection") eq_refl)
    as [Hrun Hafter].
  split.
  - rewrite Hrun. reflexivity.
  - intros l1 l2 H1 H2. exact (Hafter None l1 _ l2 None _ H1 H2).
Defined.

(** C5. The first [Close] of a listening listener stores 0 in the flag,
    then closes the wrapped listener, and returns what that close returns;
    every later [Close] returns [nil], does nothing and leaves [Listening()]
    false. *)
Theorem Close_idempotent (l : WebServerListener) (n : NetListener)
    (res : option error) :
  Listener l = Some n -> isListening l = true ->
  exists l1,
    Close res l = Returns (res, l1, [StoreListening 0; NetClose])
    /\ isListening l1 = false
    /\ Listener l1 = Some (set_closed n)
    /\ (forall res', Close res' l1 = Returns (None, l1, []))
    /\ (forall rs, callAll (map CallClose rs) l1 = Returns (tt, l1, [])).
Proof.
  intros Hn Hl. eexists. split; [apply (Close_listening l n res Hn Hl)|].
  split; [reflexivity|]. split; [reflexivity|]. split.
  - intros res'. apply Close_not_listening. reflexivity.
  - intros rs. apply Close_again. reflexivity.
Qed.

Lemma Close_idempotent_witness :
  exists l1,
    Close (Some (errorString "close failed"))
      {| Listener := Some (mkNetListener "tcp" ":44380" true false); listening := 1 |}
    = Returns (Some (errorString "close failed"), l1, [StoreListening 0; NetClose])
    /\ isListening l1 = false
    /\ Close (Some (errorString "close failed")) l1 = Returns (None, l1, []).
Proof.
  destruct (Close_idempotent
              {| Listener := Some (mkNetListener "tcp" ":44380" true false);
                 listening := 1 |}
              (mkNetListener "tcp" ":44380" true false)
              (Some (errorString "close failed")) eq_refl eq_refl)
    as (l1 & Hfirst & Hflag & _ & Hlater & _).
  exists l1. split; [exact Hfirst|]. split; [exact Hflag|]. apply Hlater.
Defined.

(** C7. The listener that a successful [Listen] returns is listening, and
    over any sequence of [Listening], [Accept] and [Close] calls its flag
    never goes from false to true and goes from true to false at most
    once. *)
Theorem listening_one_way {S : Type} (s : S) (network laddr : string)
    (hasTLS : bool) (bindErr : option error) (l : WebServerListener)
    (cs : list Call) :
  result (Listen network laddr hasTLS bindErr s) = Some (inl l) ->
  isListening l = true
  /\ exists bs, flags cs l = Some bs
       /\ length bs = length cs
       /\ changes false true true bs = 0%nat
       /\ (changes true false true bs <= 1)%nat.
Proof.
  intros HL. unfold Listen, bind, emit, ret in HL.
  destruct bindErr as [e|]; cbn in HL; [discriminate|].
  injection HL as <-. split; [reflexivity|].
  destruct (flags_one_way cs
              {| Listener := Some (mkNetListener network laddr hasTLS false);
                 listening := 1 |}) as (bs & Hbs & Hup & Hdown & _);
    [discriminate|].
  exists bs. split; [exact Hbs|]. split; [|split; assumption].
  clear Hup Hdown. revert bs Hbs.
  generalize {| Listener := Some (mkNetListener network laddr hasTLS false);
                listening := 1 |}.
  induction cs as [|c cs IH]; intros l0 bs Hbs; cbn in Hbs.
  - injection Hbs as <-. reflexivity.
  - destruct (call c l0) as [[[[] l'] eff]|]; [|discriminate].
    destruct (flags cs l') as [bs'|] eqn:E; [|discriminate].
    injection Hbs as <-. cbn. f_equal. eapply IH, E.
Qed.

Lemma listening_one_way_witness :
  let l := {| Listener := Some (mkNetListener "tcp" ":44380" false false);
              listening := 1 |} in
  let cs := [CallAccept (Some 1%positive, None); CallClose None;
             CallAccept (None, Some (errorString "closed")); CallClose None] in
  isListening l = true
  /\ exists bs, flags cs l = Some bs
       /\ length bs = length cs
       /\ changes false true true bs = 0%nat
       /\ (changes true false true bs <= 1)%nat.
Proof.
  intros l cs.
  apply (@listening_one_way unit tt "tcp" ":44380" false None l cs).
  reflexivity.
Defined.

Example flags_after_close :
  flags [CallAccept (Some 1%positive, None); CallClose None;
         CallAccept (None, Some (errorString "closed")); CallClose None]
    {| Listener := Some (mkNetListener "tcp" ":44380" false false);
       listening := 1 |}
  = Some [true; false; false; false].
Proof. reflexivity. Qed.

End Listener.

(** ** The connection state tracker *)

Section Tracker.
Import listener_go server_go props.

(** [wg.Add] returns exactly when the counter stays non-negative. *)
Lemma wg_Add_run (d : Z) (s : WebServer) :
  wg_Add d s = if wg s + d <? 0 then Panics else Returns (tt, set_wg (wg s + d) s, []).
Proof.
  unfold wg_Add, bind, get, modify, panic.
  destruct (wg s + d <? 0); reflexivity.
Qed.

Lemma withMembership_same (c : Conn) (m : gset Conn) :
  withMembership (bool_decide (c ∈ m)) c m = m.
Proof.
  unfold withMembership. case_bool_decide; set_solver.
Qed.

Lemma elem_of_withMembership (b : bool) (c c' : Conn) (m : gset Conn) :
  (c' ∈ withMembership b c m) <-> (if decide (c' = c) then b = true else c' ∈ m).
Proof.
  unfold withMembership. destruct b, (decide (c' = c)); set_solver.
Qed.

(** One call of the tracker: the counter moves by the change of the table
    and panics when that takes it below zero; the idle set gets the
    membership of the table; the user's hook, when set, is called last. *)
Lemma connStateTracker_run (c : Conn) (st : HttpConnState) (s : WebServer) :
  0 <= wg s ->
  connStateTracker c st s =
    let '(d, idle) := table (bool_decide (c ∈ idleConns s)) st in
    if wg s + d <? 0 then Panics
    else Returns (tt,
                  {| Server := Server s; ConnState := ConnState s;
                     listener := listener s; wg := wg s + d;
                     idleConns := withMembership idle c (idleConns s) |},
                  if ConnState s then [UserConnState c st] else []).
Proof.
  intros Hwg.
  pose proof (withMembership_same c (idleConns s)) as Hsame.
  unfold connStateTracker, wg_Done, wg_Add, bind, gets, get, modify, ret,
    emit, panic.
  destruct st; cbn [table];
    destruct (bool_decide (c ∈ idleConns s)) eqn:Hidle; cbn;
    repeat (match goal with
            | |- context [?a <? ?b] => destruct (Z.ltb_spec a b); cbn
            end);
    try lia; try reflexivity.
  all: unfold withMembership in Hsame; destruct (ConnState s) eqn:Hk; cbn;
    rewrite ?Hsame; unfold set_wg, set_idleConns; cbn; rewrite ?Hk;
    try reflexivity.
  all: try replace (wg s + -1 + -1) with (wg s + -2) by lia;
    rewrite ?Z.add_0_r; reflexivity.
Qed.

(** What one event does to the counter and to the idle set. *)
Lemma handle_run (e : Event) (s s1 : WebServer) (eff : list Effect) :
  0 <= wg s ->
  handle e s = Returns (tt, s1, eff) ->
  0 <= wg s1
  /\ forall c, (c ∈ idleConns s1)
       <-> idleMark (bool_decide (c ∈ idleConns s)) (transitions c [e]) = true.
Proof.
  intros Hwg Hrun. destruct e as [c0 st| |]; cbn [handle] in Hrun.
  - rewrite (connStateTracker_run c0 st s Hwg) in Hrun.
    destruct (table (bool_decide (c0 ∈ idleConns s)) st) as [d idle] eqn:Et.
    destruct (Z.ltb_spec (wg s + d) 0); [discriminate|].
    injection Hrun as <- _. cbn [wg idleConns]. split; [assumption|].
    intros c. rewrite elem_of_withMembership. cbn [transitions].
    destruct (decide (c0 = c)) as [->|Hne].
    + rewrite decide_True by reflexivity.
      destruct st, (bool_decide (c ∈ idleConns s)); cbn in Et |- *;
        injection Et as <- <-; reflexivity.
    + rewrite decide_False by congruence. cbn.
      rewrite bool_decide_eq_true. reflexivity.
  - unfold RoutineStarted in Hrun. rewrite wg_Add_run in Hrun.
    destruct (Z.ltb_spec (wg s + 1) 0); [discriminate|].
    injection Hrun as <- _. cbn. split; [assumption|].
    intros c. rewrite bool_decide_eq_true. reflexivity.
  - unfold RoutineFinished, wg_Done in Hrun. rewrite wg_Add_run in Hrun.
    destruct (Z.ltb_spec (wg s + -1) 0); [discriminate|].
    injection Hrun as <- _. cbn. split; [assumption|].
    intros c. rewrite bool_decide_eq_true. reflexivity.
Qed.

Lemma process_cons (e : Event) (evs : list Event) (s s' : WebServer)
    (eff : list Effect) :
  process (e :: evs) s = Returns (tt, s', eff) ->
  exists s1 eff1 eff2,
    handle e s = Returns (tt, s1, eff1)
    /\ process evs s1 = Returns (tt, s', eff2).
Proof.
  cbn [process]. unfold bind. intros H.
  destruct (handle e s) as [[[[] s1] eff1]|] eqn:He; [|discriminate].
  destruct (process evs s1) as [[[[] s2] eff2]|] eqn:Hevs; [|discriminate].
  injection H as <- _. exists s1, eff1, eff2. split; [reflexivity|exact Hevs].
Qed.

Lemma transitions_cons (c : Conn) (e : Event) (evs : list Event) :
  transitions c (e :: evs) = transitions c [e] ++ transitions c evs.
Proof.
  destruct e as [c0 st| |]; cbn; [|reflexivity..].
  destruct (decide (c0 = c)); reflexivity.
Qed.

Lemma idleMark_app (b : bool) (tr1 tr2 : list HttpConnState) :
  idleMark b (tr1 ++ tr2) = idleMark (idleMark b tr1) tr2.
Proof.
  revert b. induction tr1 as [|st tr1 IH]; intros b; [reflexivity|].
  destruct st; cbn; apply IH.
Qed.

(** The idle set after a run, from the idle set before it. *)
Lemma process_idleConns (evs : list Event) (s s' : WebServer) (eff : list Effect) :
  0 <= wg s ->
  process evs s = Returns (tt, s', eff) ->
  forall c, (c ∈ idleConns s')
    <-> idleMark (bool_decide (c ∈ idleConns s)) (transitions c evs) = true.
Proof.
  revert s eff. induction evs as [|e evs IH]; intros s eff Hwg Hrun c.
  - cbn in Hrun. injection Hrun as <- _. cbn. rewrite bool_decide_eq_true.
    reflexivity.
  - destruct (process_cons e evs s s' eff Hrun) as (s1 & eff1 & eff2 & He & Hevs).
    destruct (handle_run e s s1 eff1 Hwg He) as [Hwg1 Hidle1].
    rewrite (IH s1 eff2 Hwg1 Hevs c), transitions_cons, idleMark_app.
    assert (bool_decide (c ∈ idleConns s1)
            = idleMark (bool_decide (c ∈ idleConns s)) (transitions c [e])) as ->.
    { specialize (Hidle1 c).
      destruct (idleMark _ (transitions c [e])).
      - apply bool_decide_eq_true. tauto.
      - apply bool_decide_eq_false. intros Hin. apply Hidle1 in Hin.
        discriminate. }
    reflexivity.
Qed.

Lemma idledAndOpen_cons (st : HttpConnState) (tr : list HttpConnState) :
  idledAndOpen (st :: tr)
  <-> (st = StateIdle /\ (StateClosed ∉ tr) /\ (StateHijacked ∉ tr))
      \/ idledAndOpen tr.
Proof.
  unfold idledAndOpen. split.
  - intros (pre & post & Heq & Hc & Hh). destruct pre as [|st' pre].
    + cbn in Heq. injection Heq as -> ->. left. auto.
    + cbn in Heq. injection Heq as -> ->. right. eauto.
  - intros [(-> & Hc & Hh)|(pre & post & -> & Hc & Hh)].
    + exists [], tr. auto.
    + exists (st :: pre), post. auto.
Qed.

Lemma idleMark_spec (tr : list HttpConnState) (b : bool) :
  idleMark b tr = true
  <-> idledAndOpen tr
      \/ (b = true /\ (StateClosed ∉ tr) /\ (StateHijacked ∉ tr)).
Proof.
  revert b. induction tr as [|st tr IH]; intros b.
  - cbn. split.
    + intros ->. right. repeat split; apply not_elem_of_nil.
    + intros [(pre & post & Heq & _)|[-> _]]; [|reflexivity].
      destruct pre; discriminate.
  - rewrite idledAndOpen_cons.
    destruct st; cbn [idleMark]; rewrite IH, !not_elem_of_cons;
      intuition congruence.
Qed.

(** *** What the connections owe together *)












Lemma process_app (pre post : list Event) (s s' : WebServer) (eff : list Effect) :
  process (pre ++ post) s = Returns (tt, s', eff) ->
  exists s1 eff1 eff2,
    process pre s = Returns (tt, s1, eff1)
    /\ process post s1 = Returns (tt, s', eff2).
Proof.
  revert s eff. induction pre as [|e pre IH]; intros s eff Hrun.
  - exists s, [], eff. split; [reflexivity|exact Hrun].
  - cbn [app] in Hrun.
    destruct (process_cons e (pre ++ post) s s' eff Hrun)
      as (s1 & eff1 & eff2 & He & Hrest).
    destruct (IH s1 eff2 Hrest) as (s2 & eff3 & eff4 & Hpre & Hpost).
    exists s2, (eff1 ++ eff3), eff4. split; [|exact Hpost].
    cbn [process]. unfold bind. rewrite He, Hpre. reflexivity.
Qed.




(** The rows of the table. *)
Example table_rows :
  table false StateNew = (1, false) /\ table true StateNew = (1, true)
  /\ table false StateActive = (1, false) /\ table true StateActive = (1, true)
  /\ table false StateIdle = (-2, true) /\ table true StateIdle = (-1, true)
  /\ table true StateHijacked = (0, false) /\ table true StateClosed = (0, false)
  /\ table false StateHijacked = (-2, false)
  /\ table false StateClosed = (-2, false).
Proof. repeat split. Qed.




(** A connection that is closed before it sends a request takes the counter
    below zero: [wg.Add(-2)] panics. *)
Example new_then_closed_panics :
  process [Transition 1%positive StateNew; Transition 1%positive StateClosed] New
  = Panics.
Proof. vm_compute. reflexivity. Qed.

(** C6, as amended. At every point of a run that starts with an empty idle
    set, a connection is in the idle set exactly when a [StateIdle] has been
    processed for it and no [StateHijacked] or [StateClosed] after that; a
    later [StateNew] or [StateActive] leaves it in the set. *)
Theorem idle_set_tracks_idled (pre post : list Event) (s s' : WebServer)
    (eff : list Effect) :
  0 <= wg s -> idleConns s = ∅ ->
  process (pre ++ post) s = Returns (tt, s', eff) ->
  exists s1 eff1,
    process pre s = Returns (tt, s1, eff1)
    /\ forall c, (c ∈ idleConns s1) <-> idledAndOpen (transitions c pre).
Proof.
  intros Hwg Hidle Hrun.
  destruct (process_app pre post s s' eff Hrun) as (s1 & eff1 & eff2 & Hpre & _).
  exists s1, eff1. split; [exact Hpre|]. intros c.
  rewrite (process_idleConns pre s s1 eff1 Hwg Hpre c), idleMark_spec.
  rewrite bool_decide_eq_false_2 by (rewrite Hidle; set_solver).
  intuition discriminate.
Qed.

Lemma idle_set_tracks_idled_witness :
  let pre := [Transition 1 StateNew; Transition 1 StateActive;
              Transition 1 StateIdle; Transition 1 StateActive]%positive in
  let post := [Transition 1 StateIdle; Transition 1 StateClosed]%positive in
  exists s1 eff1,
    process pre New = Returns (tt, s1, eff1)
    /\ forall c, (c ∈ idleConns s1) <-> idledAndOpen (transitions c pre).
Proof.
  intros pre post.
  apply (idle_set_tracks_idled pre post New New []).
  - cbn. lia.
  - reflexivity.
  - vm_compute. reflexivity.
Defined.

(** C6, as stated, fails: after idle and then active the connection is
    still in the idle set, although an active transition has been processed
    after the idle one. *)
Lemma idle_set_keeps_active_again :
  let evs := [Transition 1 StateNew; Transition 1 StateActive;
              Transition 1 StateIdle; Transition 1 StateActive]%positive in
  (exists s' eff, process evs New = Returns (tt, s', eff)
                  /\ 1%positive ∈ idleConns s')
  /\ ~ idleNow (transitions 1%positive evs).
Proof.
  intros evs. split.
  - eexists _, _. split; [vm_compute; reflexivity|]. cbn. set_solver.
  - intros (pre & post & Heq & Ha & _). apply Ha. cbn in Heq.
    destruct pre as [|a [|b [|c [|d pre]]]]; cbn in Heq; try discriminate.
    + injection Heq as <-. set_solver.
    + injection Heq as _ _ _ Heq. destruct pre; discriminate.
Qed.

End Tracker.

(** ** The goroutine of [Serve] *)

Section AcceptLoopProps.
Import listener_go server_go props.

Lemma steps_app (l1 l2 : list Step) (g : AcceptLoop) :
  steps (l1 ++ l2) g
  = match steps l1 g with Some g1 => steps l2 g1 | None => None end.
Proof.
  revert g. induction l1 as [|a l1 IH]; intros g; [reflexivity|].
  cbn. destruct (step a g); [apply IH|reflexivity].
Qed.

Lemma ownSteps_app (l1 l2 : list Step) :
  ownSteps (l1 ++ l2) = ownSteps l1 ++ ownSteps l2.
Proof.
  induction l1 as [|a l1 IH]; [reflexivity|].
  cbn. destruct (own a); cbn; rewrite IH; reflexivity.
Qed.

Lemma waitedForZero_snoc (n : Z) (l : list Step) (a : Step) :
  waitedForZero n l -> waitedForZero n (l ++ [a]).
Proof.
  intros (l1 & l2 & g1 & -> & Hg1 & Hz).
  exists l1, (l2 ++ [a]), g1. rewrite <- app_assoc. auto.
Qed.

(** One step keeps the description of the goroutine by program point. *)
Lemma loopInv_step (n : Z) (l : list Step) (a : Step) (g g' : AcceptLoop) :
  steps l (started n) = Some g ->
  loopInv n l g -> step a g = Some g' -> loopInv n (l ++ [a]) g'.
Proof.
  intros Hl Hinv Hstep. unfold loopInv in *. rewrite ownSteps_app.
  unfold step in Hstep.
  destruct a as [e| | |m]; cbn [ownSteps own].
  - (* Serve returns *)
    destruct (pc g) eqn:Hpc; try discriminate.
    injection Hstep as <-. cbn [pc err errChan].
    destruct Hinv as (Hown & _ & Hchan). rewrite Hown. unfold outcome.
    destruct (isErrListenerClosed e) eqn:He.
    + exists e. auto.
    + exists e. rewrite He. auto.
  - (* Wait returns *)
    destruct (pc g) eqn:Hpc; try discriminate.
    destruct (Z.eqb_spec (wgNow g) 0) as [Hz|]; [|discriminate].
    injection Hstep as <-. cbn [pc err errChan].
    destruct Hinv as (e & Hown & He & Herr & Hchan).
    exists e. unfold outcome. rewrite Herr, Hown, He. cbn.
    repeat split; [assumption|]. exists l, [], g. auto.
  - (* the send is received *)
    destruct (pc g) eqn:Hpc; try discriminate.
    destruct Hinv as (e & Hchan & Herr & Hrest). rewrite Herr in Hstep.
    injection Hstep as <-. cbn [pc err errChan]. exists e. rewrite Hchan.
    split; [reflexivity|].
    destruct (isErrListenerClosed e).
    + destruct Hrest as [-> Hw]. split; [reflexivity|].
      apply waitedForZero_snoc, Hw.
    + rewrite Hrest. reflexivity.
  - (* the counter moves *)
    assert (Hsame : pc g' = pc g /\ err g' = err g /\ errChan g' = errChan g).
    { destruct (pc g), (0 <=? m); try discriminate;
        injection Hstep as <-; auto. }
    destruct Hsame as (-> & -> & ->). rewrite app_nil_r.
    destruct (pc g); try exact Hinv.
    + destruct Hinv as (e & H1 & H2 & H3). exists e. split; [exact H1|].
      split; [exact H2|]. destruct (isErrListenerClosed e); [|exact H3].
      destruct H3 as [H3 Hw]. split; [exact H3|apply waitedForZero_snoc, Hw].
    + destruct Hinv as (e & H1 & H3). exists e. split; [exact H1|].
      destruct (isErrListenerClosed e); [|exact H3].
      destruct H3 as [H3 Hw]. split; [exact H3|apply waitedForZero_snoc, Hw].
Qed.

Lemma loopInv_steps (n : Z) (l : list Step) (g : AcceptLoop) :
  steps l (started n) = Some g -> loopInv n l g.
Proof.
  revert g. induction l as [|a l IH] using rev_ind; intros g Hl.
  - cbn in Hl. injection Hl as <-. cbn. auto.
  - rewrite steps_app in Hl.
    destruct (steps l (started n)) as [g1|] eqn:Hg1; [|discriminate].
    cbn in Hl. destruct (step a g1) as [g2|] eqn:Ha; [|discriminate].
    injection Hl as <-. eapply loopInv_step; eauto.
Qed.

(** C3. The goroutine of [Serve] delivers at most one value on the
    channel, and exactly one once it has run to its end.  When the error of
    [s.Server.Serve] is an [ErrListenerClosed] the goroutine has first
    returned from [s.wg.Wait()], at a point where the counter was zero, and
    the value is the [ErrGracefulShutdown] that wraps the error; for any
    other error it has not waited and the value is that error.  The wait
    returns exactly when the counter is zero, and the send is ready as soon
    as the goroutine stands at it, whatever the counter is. *)
Theorem Serve_delivers_one_outcome (n : Z) (l : list Step) (g : AcceptLoop) :
  steps l (started n) = Some g ->
  (pc g <> Returned -> errChan g = [])
  /\ (pc g = Returned ->
      exists e, errChan g = [outcome e]
                /\ if isErrListenerClosed e
                   then ownSteps l = [ServeReturns e; WaitReturns; Received]
                        /\ waitedForZero n l
                   else ownSteps l = [ServeReturns e; Received])
  /\ (pc g = InServe ->
      forall e, exists g', step (ServeReturns e) g = Some g'
                           /\ pc g' = if isErrListenerClosed e then InWait else AtSend)
  /\ (pc g = InWait -> (step WaitReturns g <> None <-> wgNow g = 0))
  /\ (pc g = AtSend -> exists g', step Received g = Some g' /\ pc g' = Returned).
Proof.
  intros Hl. pose proof (loopInv_steps n l g Hl) as Hinv.
  unfold loopInv in Hinv. repeat split.
  - intros Hpc. destruct (pc g); try congruence.
    + apply Hinv.
    + destruct Hinv as (e & _ & _ & _ & H). exact H.
    + destruct Hinv as (e & H & _). exact H.
  - intros Hpc. rewrite Hpc in Hinv. exact Hinv.
  - intros Hpc e. unfold step. rewrite Hpc. eexists. split; reflexivity.
  - unfold step. rewrite H. destruct (Z.eqb_spec (wgNow g) 0); congruence.
  - unfold step. rewrite H. intros ->. cbn. discriminate.
  - intros Hpc. rewrite Hpc in Hinv. destruct Hinv as (e & _ & Herr & _).
    unfold step. rewrite Hpc, Herr. eexists. split; reflexivity.
Qed.

Lemma Serve_delivers_one_outcome_witness :
  let e := ErrListenerClosed (errorString "use of closed network connection") in
  let l := [Elsewhere 2; ServeReturns e; Elsewhere 1; Elsewhere 0;
            WaitReturns; Received] in
  exists g, steps l (started 1) = Some g
            /\ pc g = Returned
            /\ errChan g = [ErrGracefulShutdown e]
            /\ ownSteps l = [ServeReturns e; WaitReturns; Received]
            /\ waitedForZero 1 l.
Proof.
  intros e l. eexists. split; [reflexivity|]. split; [reflexivity|].
  destruct (Serve_delivers_one_outcome 1 l _ eq_refl) as (_ & Hend & _).
  destruct (Hend eq_refl) as (e' & Hchan & Hrest).
  cbn in Hchan. unfold outcome in Hchan.
  destruct (isErrListenerClosed e') eqn:He'.
  - split; [reflexivity|]. split; [reflexivity|]. apply Hrest.
  - cbn in Hchan. injection Hchan as <-. discriminate.
Defined.

(** The two ways through the goroutine. *)
Example graceful_waits_for_zero :
  let e := ErrListenerClosed (errorString "closed") in
  steps [ServeReturns e; WaitReturns] (started 1) = None
  /\ steps [ServeReturns e; Received] (started 0) = None
  /\ errChan <$> steps [ServeReturns e; Elsewhere 0; WaitReturns; Received] (started 1)
     = Some [ErrGracefulShutdown e].
Proof. repeat split. Qed.

Example fault_is_sent_at_once :
  errChan <$> steps [ServeReturns (errorString "accept failed"); Received] (started 3)
  = Some [errorString "accept failed"].
Proof. reflexivity. Qed.

End AcceptLoopProps.

(** ** Listen, Serve and Shutdown *)

Section Coordinator.
Import listener_go server_go props.

Lemma set_listener_same (s : WebServer) : set_listener (listener s) s = s.
Proof. destruct s; reflexivity. Qed.

Lemma onListener_Listening (s : WebServer) :
  onListener Listening s = Returns (isListening (listener s), s, []).
Proof.
  unfold onListener, zoom, Listening, gets. rewrite set_listener_same.
  reflexivity.
Qed.

Lemma Listen_listening (s : WebServer) (addr : string) (bindErr : option error) :
  isListening (listener s) = true ->
  Listen addr bindErr s = Returns (Some errListenerAlreadyCreated, s, []).
Proof.
  intros Hl. unfold Listen, bind. rewrite onListener_Listening, Hl. reflexivity.
Qed.

Lemma Listen_bind_fails (s : WebServer) (addr : string) (e : error) :
  isListening (listener s) = false ->
  Listen addr (Some e) s = Returns (Some e, s, [NetListen "tcp" addr (hasTLS s)]).
Proof.
  intros Hl. unfold Listen, bind. rewrite onListener_Listening, Hl. reflexivity.
Qed.

Lemma Listen_binds (s : WebServer) (addr : string) :
  isListening (listener s) = false ->
  Listen addr None s =
    Returns (None,
             {| Server := set_Addr addr (Server s); ConnState := ConnState s;
                listener := {| Listener := Some (mkNetListener "tcp" addr (hasTLS s) false);
                               listening := 1 |};
                wg := wg s; idleConns := idleConns s |},
             [NetListen "tcp" addr (hasTLS s)]).
Proof.
  intros Hl. unfold Listen, bind. rewrite onListener_Listening, Hl. reflexivity.
Qed.

Lemma Serve_not_listening (s : WebServer) :
  isListening (listener s) = false ->
  Serve s = Returns (Some errListenerNotYetCreated, s, []).
Proof.
  intros Hl. unfold Serve, bind. rewrite onListener_Listening, Hl. reflexivity.
Qed.

Lemma Serve_listening (s : WebServer) :
  isListening (listener s) = true ->
  Serve s = Returns (None, set_Server (set_Server_ConnState true (Server s)) s,
                     [GoAcceptLoop]).
Proof.
  intros Hl. unfold Serve, bind. rewrite onListener_Listening, Hl. reflexivity.
Qed.

Lemma Shutdown_not_listening (s : WebServer) (closeErr : option error) :
  isListening (listener s) = false ->
  Shutdown closeErr s = Returns (tt, s, []).
Proof.
  intros Hl. unfold Shutdown, bind. rewrite onListener_Listening, Hl. reflexivity.
Qed.

Lemma Shutdown_listening (s : WebServer) (n : NetListener) (closeErr : option error) :
  Listener (listener s) = Some n ->
  isListening (listener s) = true ->
  Shutdown closeErr s =
    Returns (tt,
             {| Server := set_keepAlives false (Server s); ConnState := ConnState s;
                listener := {| Listener := Some (set_closed n); listening := 0 |};
                wg := wg s; idleConns := idleConns s |},
             [SetKeepAlives false; StoreListening 0; NetClose]).
Proof.
  intros Hn Hl. unfold Shutdown, bind. rewrite onListener_Listening, Hl.
  cbn [negb]. unfold SetKeepAlivesEnabled, bind, modify, emit, onListener, zoom.
  cbn [listener set_Server].
  rewrite (Close_listening (listener s) n closeErr Hn Hl). reflexivity.
Qed.

(** The tracker and the registration API touch the counter and the idle
    set only, and start no goroutine. *)
Lemma handle_frame (e : Event) (s s1 : WebServer) (eff : list Effect) :
  handle e s = Returns (tt, s1, eff) ->
  listener s1 = listener s /\ Server s1 = Server s /\ (GoAcceptLoop ∉ eff).
Proof.
  destruct e as [c st| |]; cbn [handle];
    unfold connStateTracker, RoutineStarted, RoutineFinished, wg_Done, wg_Add,
      bind, gets, get, modify, ret, emit, panic.
  - destruct st; cbn;
      repeat (match goal with
              | |- context [bool_decide ?P] => destruct (bool_decide P); cbn
              | |- context [?a <? ?b] => destruct (a <? b); cbn
              | |- context [ConnState s] => destruct (ConnState s); cbn
              end);
      intros H; try discriminate; injection H as <- <-; cbn;
      repeat split; set_solver.
  - destruct (wg s + 1 <? 0); cbn; intros H; [discriminate|].
    injection H as <- <-. cbn. repeat split. set_solver.
  - destruct (wg s + -1 <? 0); cbn; intros H; [discriminate|].
    injection H as <- <-. cbn. repeat split. set_solver.
Qed.

Lemma calls_cons (a : Api) (cs : list Api) (s s' : WebServer) (eff : list Effect) :
  calls (a :: cs) s = Returns (tt, s', eff) ->
  exists s1 eff1 eff2,
    api a s = Returns (tt, s1, eff1)
    /\ calls cs s1 = Returns (tt, s', eff2)
    /\ eff = eff1 ++ eff2.
Proof.
  cbn [calls]. unfold bind. intros H.
  destruct (api a s) as [[[[] s1] eff1]|] eqn:Ha; [|discriminate].
  destruct (calls cs s1) as [[[[] s2] eff2]|] eqn:Hcs; [|discriminate].
  injection H as <- <-. exists s1, eff1, eff2. auto.
Qed.

(** Every call keeps the listener well formed. *)
Lemma api_wf (a : Api) (s s1 : WebServer) (eff : list Effect) :
  wf (listener s) -> api a s = Returns (tt, s1, eff) -> wf (listener s1).
Proof.
  intros Hwf Ha. destruct a as [addr bindErr| |closeErr|e]; cbn [api] in Ha.
  - unfold bind in Ha. destruct (isListening (listener s)) eqn:Hl.
    + rewrite (Listen_listening s addr bindErr Hl) in Ha.
      injection Ha as <- _. exact Hwf.
    + destruct bindErr as [e|].
      * rewrite (Listen_bind_fails s addr e Hl) in Ha.
        injection Ha as <- _. exact Hwf.
      * rewrite (Listen_binds s addr Hl) in Ha.
        injection Ha as <- _. intros _. discriminate.
  - unfold bind in Ha. destruct (isListening (listener s)) eqn:Hl.
    + rewrite (Serve_listening s Hl) in Ha. injection Ha as <- _. exact Hwf.
    + rewrite (Serve_not_listening s Hl) in Ha. injection Ha as <- _. exact Hwf.
  - destruct (isListening (listener s)) eqn:Hl.
    + destruct (Listener (listener s)) as [n|] eqn:Hn;
        [|exfalso; apply (Hwf Hl), Hn].
      rewrite (Shutdown_listening s n closeErr Hn Hl) in Ha.
      injection Ha as <- _. intros Habs. discriminate.
    + rewrite (Shutdown_not_listening s closeErr Hl) in Ha.
      injection Ha as <- _. exact Hwf.
  - destruct (handle_frame e s s1 eff Ha) as (-> & _). exact Hwf.
Qed.

Lemma calls_wf (cs : list Api) (s s' : WebServer) (eff : list Effect) :
  wf (listener s) -> calls cs s = Returns (tt, s', eff) -> wf (listener s').
Proof.
  revert s eff. induction cs as [|a cs IH]; intros s eff Hwf Hrun.
  - injection Hrun as <- _. exact Hwf.
  - destruct (calls_cons a cs s s' eff Hrun) as (s1 & eff1 & eff2 & Ha & Hcs & _).
    eapply IH; [|exact Hcs]. eapply api_wf; eauto.
Qed.

(** Without a bind that succeeds the server never listens, and starts no
    goroutine. *)
Lemma api_not_listening (a : Api) (s s1 : WebServer) (eff : list Effect) :
  bindSucceeds a = false ->
  isListening (listener s) = false ->
  api a s = Returns (tt, s1, eff) ->
  isListening (listener s1) = false /\ (GoAcceptLoop ∉ eff).
Proof.
  intros Hb Hl Ha. destruct a as [addr [e|]| |closeErr|e]; cbn [api] in Ha;
    try discriminate.
  - unfold bind in Ha. rewrite (Listen_bind_fails s addr e Hl) in Ha.
    injection Ha as <- <-. split; [exact Hl|]. set_solver.
  - unfold bind in Ha. rewrite (Serve_not_listening s Hl) in Ha.
    injection Ha as <- <-. split; [exact Hl|]. set_solver.
  - rewrite (Shutdown_not_listening s closeErr Hl) in Ha.
    injection Ha as <- <-. split; [exact Hl|]. set_solver.
  - destruct (handle_frame e s s1 eff Ha) as (-> & _ & Hgo). auto.
Qed.

Lemma calls_not_listening (cs : list Api) (s s' : WebServer) (eff : list Effect) :
  forallb (fun a => negb (bindSucceeds a)) cs = true ->
  isListening (listener s) = false ->
  calls cs s = Returns (tt, s', eff) ->
  isListening (listener s') = false /\ (GoAcceptLoop ∉ eff).
Proof.
  revert s eff. induction cs as [|a cs IH]; intros s eff Hcs Hl Hrun.
  - injection Hrun as <- <-. split; [exact Hl|]. set_solver.
  - cbn in Hcs. apply andb_true_iff in Hcs as [Ha Hcs].
    apply negb_true_iff in Ha.
    destruct (calls_cons a cs s s' eff Hrun) as (s1 & eff1 & eff2 & Hr1 & Hr2 & ->).
    destruct (api_not_listening a s s1 eff1 Ha Hl Hr1) as [Hl1 Hgo1].
    destruct (IH s1 eff2 Hcs Hl1 Hr2) as [Hl' Hgo2].
    split; [exact Hl'|]. rewrite elem_of_app. tauto.
Qed.

(** C8. A [Listen] on a server that is listening returns
    [errListenerAlreadyCreated], changes nothing and binds nothing.  After
    any calls from [New()] among which no bind succeeded, [Serve] returns
    [errListenerNotYetCreated], changes nothing and starts no goroutine, and
    none has been started before. *)
Theorem sequencing_errors (s : WebServer) (addr : string) (bindErr : option error)
    (cs : list Api) (s0 : WebServer) (eff : list Effect) :
  isListening (listener s) = true ->
  forallb (fun a => negb (bindSucceeds a)) cs = true ->
  calls cs New = Returns (tt, s0, eff) ->
  Listen addr bindErr s = Returns (Some errListenerAlreadyCreated, s, [])
  /\ Serve s0 = Returns (Some errListenerNotYetCreated, s0, [])
  /\ (GoAcceptLoop ∉ eff).
Proof.
  intros Hl Hcs Hrun. split; [apply Listen_listening, Hl|].
  destruct (calls_not_listening cs New s0 eff Hcs eq_refl Hrun) as [Hl0 Hgo].
  split; [apply Serve_not_listening, Hl0|exact Hgo].
Qed.

Lemma sequencing_errors_witness :
  let s := {| Server := set_Addr ":44380" (Server New); ConnState := false;
              listener := {| Listener := Some (mkNetListener "tcp" ":44380" false false);
                             listening := 1 |};
              wg := 0; idleConns := ∅ |} in
  let cs := [ApiServe; ApiListen ":80" (Some (errorString "permission denied"));
             ApiShutdown None; ApiEvent Started; ApiServe] in
  Listen ":44381" None s = Returns (Some errListenerAlreadyCreated, s, [])
  /\ Serve (set_wg 1 New) = Returns (Some errListenerNotYetCreated, set_wg 1 New, [])
  /\ (GoAcceptLoop ∉ [NetListen "tcp" ":80" false]).
Proof.
  intros s cs.
  apply (sequencing_errors s ":44381" None cs (set_wg 1 New)
           [NetListen "tcp" ":80" false]).
  - reflexivity.
  - reflexivity.
  - vm_compute. reflexivity.
Defined.

(** The servers that calls of the API build from [New()] have a well
    formed listener. *)
Lemma reachable_wf (cs : list Api) (s : WebServer) (eff : list Effect) :
  calls cs New = Returns (tt, s, eff) -> wf (listener s).
Proof. apply calls_wf. intros Hl. discriminate. Qed.

(** C10. [Shutdown] returns nothing, so no error, and what it does is the
    same whatever the listener's [Close] returns.  On a server that is not
    listening it does nothing.  On a listening server it disables
    keep-alives, stores 0 in the flag and closes the wrapped listener; the
    counter, the idle set, the user's hook, the rest of [s.Server] and what
    the listener wraps stay as they were. *)
Theorem Shutdown_frame (s : WebServer) (closeErr : option error) :
  wf (listener s) ->
  exists s' eff,
    Shutdown closeErr s = Returns (tt, s', eff)
    /\ (forall closeErr', Shutdown closeErr' s = Returns (tt, s', eff))
    /\ wg s' = wg s /\ idleConns s' = idleConns s /\ ConnState s' = ConnState s
    /\ Addr (Server s') = Addr (Server s)
    /\ TLSConfig (Server s') = TLSConfig (Server s)
    /\ Server_ConnState (Server s') = Server_ConnState (Server s)
    /\ (isListening (listener s) = false -> s' = s /\ eff = [])
    /\ (isListening (listener s) = true ->
        keepAlives (Server s') = false
        /\ isListening (listener s') = false
        /\ Listener (listener s') = set_closed <$> Listener (listener s)
        /\ eff = [SetKeepAlives false; StoreListening 0; NetClose]).
Proof.
  intros Hwf. destruct (isListening (listener s)) eqn:Hl.
  - destruct (Listener (listener s)) as [n|] eqn:Hn;
      [|exfalso; apply (Hwf Hl), Hn].
    eexists _, _. split; [apply (Shutdown_listening s n closeErr Hn Hl)|].
    split; [intros closeErr'; apply (Shutdown_listening s n closeErr' Hn Hl)|].
    cbn. repeat split; try discriminate.
  - exists s, []. split; [apply (Shutdown_not_listening s closeErr Hl)|].
    split; [intros closeErr'; apply (Shutdown_not_listening s closeErr' Hl)|].
    repeat split; discriminate.
Qed.

Lemma Shutdown_frame_witness :
  let s := {| Server := set_Addr ":44380" (Server New); ConnState := true;
              listener := {| Listener := Some (mkNetListener "tcp" ":44380" false false);
                             listening := 1 |};
              wg := 3; idleConns := {[2%positive]} |} in
  exists s' eff,
    Shutdown (Some (errorString "close failed")) s = Returns (tt, s', eff)
    /\ wg s' = 3 /\ idleConns s' = {[2%positive]}
    /\ isListening (listener s') = false
    /\ eff = [SetKeepAlives false; StoreListening 0; NetClose].
Proof.
  intros s.
  destruct (Shutdown_frame s (Some (errorString "close failed")))
    as (s' & eff & Hrun & _ & Hwg & Hidle & _ & _ & _ & _ & _ & Hon).
  - intros _. discriminate.
  - destruct (Hon eq_refl) as (_ & Hflag & _ & Heff).
    exists s', eff. auto.
Defined.

(** C9, as amended. The server is not used up by a shutdown: after
    [Shutdown] it is not listening, and a [Listen] whose bind succeeds
    returns no error and installs a new listener that is listening and
    open; the listener that was closed stays closed. *)
Theorem Listen_again_after_Shutdown (s : WebServer) (closeErr : option error)
    (addr : string) :
  wf (listener s) ->
  exists s1 eff1 s2,
    Shutdown closeErr s = Returns (tt, s1, eff1)
    /\ isListening (listener s1) = false
    /\ Listen addr None s1 = Returns (None, s2, [NetListen "tcp" addr (hasTLS s)])
    /\ isListening (listener s2) = true
    /\ Listener (listener s2) = Some (mkNetListener "tcp" addr (hasTLS s) false)
    /\ Addr (Server s2) = addr
    /\ wg s2 = wg s /\ idleConns s2 = idleConns s.
Proof.
  intros Hwf. destruct (isListening (listener s)) eqn:Hl.
  - destruct (Listener (listener s)) as [n|] eqn:Hn;
      [|exfalso; apply (Hwf Hl), Hn].
    eexists _, _, _. split; [apply (Shutdown_listening s n closeErr Hn Hl)|].
    split; [reflexivity|].
    split; [rewrite Listen_binds by reflexivity; reflexivity|].
    cbn. auto.
  - eexists _, _, _. split; [apply (Shutdown_not_listening s closeErr Hl)|].
    split; [exact Hl|].
    split; [rewrite Listen_binds by exact Hl; reflexivity|]. cbn. auto.
Qed.

Lemma Listen_again_after_Shutdown_witness :
  let s := {| Server := set_Addr ":44380" (Server New); ConnState := false;
              listener := {| Listener := Some (mkNetListener "tcp" ":44380" false false);
                             listening := 1 |};
              wg := 0; idleConns := ∅ |} in
  exists s1 eff1 s2,
    Shutdown None s = Returns (tt, s1, eff1)
    /\ isListening (listener s1) = false
    /\ Listen ":44380" None s1 = Returns (None, s2, [NetListen "tcp" ":44380" false])
    /\ isListening (listener s2) = true.
Proof.
  intros s.
  destruct (Listen_again_after_Shutdown s None ":44380")
    as (s1 & eff1 & s2 & H1 & H2 & H3 & H4 & _).
  - intros _. discriminate.
  - exists s1, eff1, s2. auto.
Defined.

(** C9, as stated, fails: after [Listen], [Serve], [Shutdown] and the end
    of the goroutine, a second [Listen] on the same server returns no error
    and the server is listening again. *)
Lemma Listen_succeeds_after_Shutdown :
  let closed := ErrListenerClosed (errorString "use of closed network connection") in
  exists s eff g s2 eff2,
    calls [ApiListen ":44380" None; ApiServe; ApiShutdown None] New
      = Returns (tt, s, eff)
    /\ steps [ServeReturns closed; WaitReturns; Received] (started (wg s)) = Some g
    /\ errChan g = [ErrGracefulShutdown closed]
    /\ Listen ":44380" None s = Returns (None, s2, eff2)
    /\ isListening (listener s2) = true.
Proof.
  intros closed. eexists _, _, _, _, _.
  split; [vm_compute; reflexivity|].
  split; [vm_compute; reflexivity|].
  split; [reflexivity|].
  split; [vm_compute; reflexivity|reflexivity].
Qed.

End Coordinator.

(** ** The TLS configuration *)

Section Certificates.
Import listener_go server_go certificates.

Lemma addTLSCert_run (index : list string -> list (string * string))
    (cert : string) (cfg : option TlsConfig) :
  addTLSCert index cert cfg = Returns (tt, extended index [cert] cfg, []).
Proof. destruct cfg as [c|]; reflexivity. Qed.

Lemma add_run (index : list string -> list (string * string))
    (a : Add) (cfg : option TlsConfig) :
  add index a cfg =
    Returns (refusal a,
             match given a with
             | inl cert => extended index [cert] cfg
             | inr _ => cfg
             end, []).
Proof.
  destruct a as [[cert|e]|[cert|e]]; cbn [add refusal given];
    unfold AddTLSCertificate, AddTLSCertificateFromFile, bind;
    rewrite ?addTLSCert_run; reflexivity.
Qed.

Lemma extended_cons (index : list string -> list (string * string))
    (cert : string) (certs : list string) (cfg : option TlsConfig) :
  extended index certs (extended index [cert] cfg)
  = extended index (cert :: certs) cfg.
Proof.
  destruct certs as [|c' certs]; [reflexivity|].
  unfold extended, set_NameToCertificate, set_Certificates. cbn.
  rewrite <- !app_assoc. reflexivity.
Qed.

(** Calls in a row: none panics, each returns its own error, and the
    configuration is extended by the certificates that were accepted. *)
Lemma addAll_run (index : list string -> list (string * string))
    (l : list Add) (cfg : option TlsConfig) :
  addAll index l cfg
  = Returns (map refusal l, extended index (accepted l) cfg, []).
Proof.
  revert cfg. induction l as [|a l IH]; intros cfg; [reflexivity|].
  cbn [addAll map accepted]. unfold bind at 1. rewrite add_run.
  unfold bind at 1.
  assert (Hr : refusal a = match given a with inl _ => None | inr e => Some e end)
    by reflexivity.
  destruct (given a) as [cert|e]; rewrite Hr, IH, ?extended_cons; reflexivity.
Qed.

(** X1. Calls of [AddTLSCertificate] and [AddTLSCertificateFromFile] of
    which none gets a certificate from the parser return, each, the error of
    the parser, and leave [s.Server.TLSConfig] as it was: a [nil]
    configuration stays [nil]. *)
Theorem refused_certificates_leave_config (index : list string -> list (string * string))
    (l : list Add) (cfg : option TlsConfig) :
  accepted l = [] ->
  addAll index l cfg = Returns (map refusal l, cfg, [])
  /\ Forall (fun r => r <> None) (map refusal l).
Proof.
  intros Hnone. rewrite addAll_run, Hnone. split; [reflexivity|].
  induction l as [|a l IH]; [constructor|].
  cbn [accepted] in Hnone. cbn [map]. unfold refusal at 1.
  destruct (given a) as [cert|e]; [discriminate|].
  constructor; [discriminate|apply IH, Hnone].
Qed.

Lemma refused_certificates_leave_config_witness :
  addAll oneName [FromBlocks (inr (errorString "failed to parse certificate PEM data"));
                FromFiles (inr (errorString "no such file"))] None
  = Returns ([Some (errorString "failed to parse certificate PEM data");
              Some (errorString "no such file")], None, []).
Proof.
  apply (refused_certificates_leave_config oneName
           [FromBlocks (inr (errorString "failed to parse certificate PEM data"));
            FromFiles (inr (errorString "no such file"))] None).
  reflexivity.
Defined.

(** X2. Over any calls of the two methods, the certificates of the
    configuration afterwards are those it had before followed by the
    accepted ones in the order of the calls; a refused call adds nothing. *)
Theorem certificates_accumulate (index : list string -> list (string * string))
    (l : list Add) (cfg : option TlsConfig) :
  exists cfg',
    state (addAll index l cfg) = Some cfg'
    /\ default [] (Certificates <$> cfg')
       = default [] (Certificates <$> cfg) ++ accepted l.
Proof.
  rewrite addAll_run. eexists. split; [reflexivity|].
  destruct (accepted l) as [|cert certs]; [rewrite app_nil_r; reflexivity|].
  destruct cfg as [c|]; reflexivity.
Qed.

(** X3. After calls of which at least one was accepted, the configuration
    is not [nil] and its name index is the one [BuildNameToCertificate]
    computes from its certificates, whatever the index was before. *)
Theorem index_follows_certificates (index : list string -> list (string * string))
    (l : list Add) (cfg : option TlsConfig) :
  accepted l <> [] ->
  exists c', state (addAll index l cfg) = Some (Some c')
             /\ NameToCertificate c' = index (Certificates c').
Proof.
  intros Hsome. rewrite addAll_run.
  destruct (accepted l) as [|cert certs]; [congruence|].
  eexists. split; reflexivity.
Qed.

Lemma index_follows_certificates_witness :
  let stale := set_NameToCertificate [("old.example"%string, "gone"%string)]
                 DefaultTLSConfiguration in
  exists c', state (addAll oneName [FromFiles (inl "srv1"%string)] (Some stale))
             = Some (Some c')
             /\ NameToCertificate c' = oneName (Certificates c').
Proof.
  intros stale.
  apply (index_follows_certificates oneName [FromFiles (inl "srv1"%string)] (Some stale)).
  discriminate.
Defined.

(** X4. The default configuration is installed only on a [nil]
    configuration: the protocols, the cipher suites and the two flags of a
    configuration that is already set survive every call, and on [nil] the
    first accepted certificate brings those of
    [DefaultTLSConfiguration()]. *)
Theorem defaults_only_on_nil (index : list string -> list (string * string))
    (l : list Add) (cfg : option TlsConfig) (c' : TlsConfig) :
  state (addAll index l cfg) = Some (Some c') ->
  let c := default DefaultTLSConfiguration cfg in
  NextProtos c' = NextProtos c
  /\ CipherSuites c' = CipherSuites c
  /\ PreferServerCipherSuites c' = PreferServerCipherSuites c
  /\ SessionTicketsDisabled c' = SessionTicketsDisabled c.
Proof.
  rewrite addAll_run. intros H c. cbn [state] in H.
  destruct (accepted l) as [|cert certs]; cbn [extended] in H.
  - subst c. injection H as ->. cbn. auto.
  - injection H as <-. cbn. auto.
Qed.

Lemma defaults_only_on_nil_witness :
  let custom := {| Certificates := ["first"%string]; NameToCertificate := [];
                   NextProtos := ["h2"%string; "http/1.1"%string];
                   CipherSuites := [TLS_ECDHE_RSA_WITH_AES_128_GCM_SHA256];
                   PreferServerCipherSuites := false;
                   SessionTicketsDisabled := true |} in
  let c' := set_NameToCertificate (oneName ["first"%string; "second"%string])
              (set_Certificates ["first"%string; "second"%string] custom) in
  NextProtos c' = ["h2"%string; "http/1.1"%string]
  /\ CipherSuites c' = [TLS_ECDHE_RSA_WITH_AES_128_GCM_SHA256]
  /\ PreferServerCipherSuites c' = false
  /\ SessionTicketsDisabled c' = true.
Proof.
  intros custom c'.
  apply (defaults_only_on_nil oneName [FromBlocks (inl "second"%string)] (Some custom) c').
  reflexivity.
Defined.

(** X5. [Listen] binds a TLS listener exactly when [s.Server.TLSConfig] is
    not [nil]: after calls of the two methods on a server that is not
    listening, that is when a configuration was set before or a certificate
    was accepted; calls that were all refused on a [nil] configuration leave
    the server on plain HTTP. *)
Theorem TLS_follows_configuration (index : list string -> list (string * string))
    (s : WebServer) (l : list Add)
    (cfg cfg' : option TlsConfig) (addr : string) :
  isListening (listener s) = false ->
  state (addAll index l cfg) = Some cfg' ->
  let tls := match cfg, accepted l with None, [] => false | _, _ => true end in
  exists s2,
    Listen addr None (withTLSConfig cfg' s)
      = Returns (None, s2, [NetListen "tcp" addr tls])
    /\ Listener (listener s2) = Some (mkNetListener "tcp" addr tls false)
    /\ isListening (listener s2) = true.
Proof.
  intros Hl Hrun tls. rewrite addAll_run in Hrun. injection Hrun as <-.
  set (s1 := withTLSConfig (extended index (accepted l) cfg) s).
  assert (Hl1 : isListening (listener s1) = false) by exact Hl.
  assert (Htls : hasTLS s1 = tls).
  { subst tls s1. unfold hasTLS, withTLSConfig. cbn.
    destruct cfg as [c|], (accepted l) as [|cert certs]; reflexivity. }
  rewrite (Listen_binds s1 addr Hl1), Htls.
  eexists. split; [reflexivity|]. split; reflexivity.
Qed.

Lemma TLS_follows_configuration_witness :
  (exists s2,
     Listen ":44380" None
       (withTLSConfig
          (Some (set_NameToCertificate (oneName ["srv1"%string])
                   (set_Certificates ["srv1"%string] DefaultTLSConfiguration))) New)
       = Returns (None, s2, [NetListen "tcp" ":44380" true])
     /\ Listener (listener s2) = Some (mkNetListener "tcp" ":44380" true false)
     /\ isListening (listener s2) = true)
  /\ (exists s2,
        Listen ":44380" None (withTLSConfig None New)
          = Returns (None, s2, [NetListen "tcp" ":44380" false])
        /\ Listener (listener s2) = Some (mkNetListener "tcp" ":44380" false false)
        /\ isListening (listener s2) = true).
Proof.
  split.
  - apply (TLS_follows_configuration oneName New
             [FromBlocks (inr (errorString "bad PEM")); FromFiles (inl "srv1"%string)]
             None _ ":44380"); reflexivity.
  - apply (TLS_follows_configuration oneName New
             [FromBlocks (inr (errorString "bad PEM"))] None None ":44380");
      reflexivity.
Defined.

End Certificates.

(** ** Runs of the listener and of the server *)

Section Runs.
Import listener_go server_go props traces.

Lemma count_app {A} (f : A -> bool) (l1 l2 : list A) :
  count f (l1 ++ l2) = (count f l1 + count f l2)%nat.
Proof.
  induction l1 as [|x l1 IH]; [reflexivity|]. cbn. rewrite IH. lia.
Qed.

(** What one call on a listener logs. *)
Lemma call_effects (c : Call) (l : WebServerListener) :
  Listener l <> None ->
  exists l' eff,
    call c l = Returns (tt, l', eff)
    /\ Listener l' <> None
    /\ (isListening l' = true -> isListening l = true)
    /\ count isNetAccept eff = (if isCallAccept c then 1 else 0)%nat
    /\ count isStore eff = count isNetClose eff
    /\ (count isNetClose eff <= if isListening l then 1 else 0)%nat
    /\ (0 < count isNetClose eff -> isListening l' = false)%nat.
Proof.
  intros Hn. destruct (Listener l) as [n|] eqn:En; [clear Hn|congruence].
  assert (Hl : Listener l <> None) by congruence.
  destruct c as [|[conn err]|res]; unfold call, bind.
  - exists l, []. cbn. repeat split; auto; lia.
  - rewrite (Accept_run l n conn err En). exists l, [NetAccept]. cbn.
    repeat split; auto; lia.
  - destruct (isListening l) eqn:El.
    + rewrite (Close_listening l n res En El). eexists _, _. cbn.
      split; [reflexivity|]. repeat split; auto; try discriminate; lia.
    + rewrite (Close_not_listening l res El). exists l, []. cbn.
      rewrite El. repeat split; auto; lia.
Qed.

(** What a sequence of calls on a listener logs. *)
Lemma callAll_effects (cs : list Call) (l : WebServerListener) :
  Listener l <> None ->
  exists l' eff,
    callAll cs l = Returns (tt, l', eff)
    /\ count isNetAccept eff = count isCallAccept cs
    /\ count isStore eff = count isNetClose eff
    /\ (count isNetClose eff <= if isListening l then 1 else 0)%nat.
Proof.
  revert l. induction cs as [|c cs IH]; intros l Hn.
  - exists l, []. cbn. repeat split; auto. destruct (isListening l); lia.
  - destruct (call_effects c l Hn)
      as (l1 & eff1 & Hc & Hn1 & Hmono & Hacc & Hst & Hcl & Hoff).
    destruct (IH l1 Hn1) as (l' & eff2 & Hcs & Hacc2 & Hst2 & Hcl2).
    exists l', (eff1 ++ eff2). cbn [callAll]. unfold bind. rewrite Hc, Hcs.
    split; [reflexivity|]. rewrite !count_app. cbn [count].
    split; [lia|]. split; [lia|].
    destruct (isListening l) eqn:El.
    + destruct (isListening l1) eqn:El1; [|lia].
      destruct (count isNetClose eff1) as [|k] eqn:Hk; [lia|].
      assert (Hpos : (0 < S k)%nat) by lia.
      specialize (Hoff Hpos). discriminate.
    + destruct (isListening l1) eqn:El1; [specialize (Hmono eq_refl); discriminate|].
      lia.
Qed.

(** X6. Over any sequence of [Listening], [Accept] and [Close] calls on a
    listener that wraps a [net.Listener], no call panics, every [Accept]
    calls the wrapped accept exactly once, and the wrapped listener is
    closed at most once, with as many stores to the flag as closes; on a
    listener that is not listening it is never closed. *)
Theorem wrapped_listener_closed_once (cs : list Call) (l : WebServerListener) :
  Listener l <> None ->
  exists l' eff,
    callAll cs l = Returns (tt, l', eff)
    /\ count isNetAccept eff = count isCallAccept cs
    /\ count isStore eff = count isNetClose eff
    /\ (count isNetClose eff <= if isListening l then 1 else 0)%nat.
Proof. apply callAll_effects. Qed.

Lemma wrapped_listener_closed_once_witness :
  let l := {| Listener := Some (mkNetListener "tcp" ":44380" false false);
              listening := 1 |} in
  let cs := [CallAccept (Some 1%positive, None); CallClose None;
             CallAccept (None, Some (errorString "closed")); CallClose None;
             CallListening] in
  exists l' eff,
    callAll cs l = Returns (tt, l', eff)
    /\ count isNetAccept eff = count isCallAccept cs
    /\ count isStore eff = count isNetClose eff
    /\ (count isNetClose eff <= if isListening l then 1 else 0)%nat.
Proof.
  intros l cs. apply (wrapped_listener_closed_once cs l). discriminate.
Defined.

(** The hook of the user is called once for a transition, last, and not
    at all by the registration API. *)
Lemma handle_effects (e : Event) (s s1 : WebServer) (eff : list Effect) :
  handle e s = Returns (tt, s1, eff) ->
  ConnState s1 = ConnState s
  /\ eff = (if ConnState s then hookCalls [e] else []).
Proof.
  destruct e as [c st| |]; cbn [handle hookCalls];
    unfold connStateTracker, RoutineStarted, RoutineFinished, wg_Done, wg_Add,
      bind, gets, get, modify, ret, emit, panic.
  - destruct st; cbn;
      repeat (match goal with
              | |- context [bool_decide ?P] => destruct (bool_decide P); cbn
              | |- context [?a <? ?b] => destruct (a <? b); cbn
              end);
      destruct (ConnState s) eqn:Hk; cbn;
      intros H; try discriminate; injection H as <- <-; cbn; auto.
  - destruct (wg s + 1 <? 0); cbn; intros H; [discriminate|].
    injection H as <- <-. cbn. destruct (ConnState s); auto.
  - destruct (wg s + -1 <? 0); cbn; intros H; [discriminate|].
    injection H as <- <-. cbn. destruct (ConnState s); auto.
Qed.

Lemma hookCalls_cons (e : Event) (evs : list Event) :
  hookCalls (e :: evs) = hookCalls [e] ++ hookCalls evs.
Proof. destruct e; reflexivity. Qed.

(** X7. A run of the tracker and of the registration API that returns has
    called the user's hook, when one is set, once for every transition, in
    the order of the transitions and with the connection and state it was
    given, and has made no other call out of the package; with no hook it
    has made none.  The hook itself is left as it was. *)
Theorem hook_sees_every_transition (evs : list Event) (s s' : WebServer)
    (eff : list Effect) :
  process evs s = Returns (tt, s', eff) ->
  ConnState s' = ConnState s
  /\ eff = (if ConnState s then hookCalls evs else []).
Proof.
  revert s eff. induction evs as [|e evs IH]; intros s eff Hrun.
  - injection Hrun as <- <-. destruct (ConnState s); auto.
  - cbn [process] in Hrun. unfold bind in Hrun.
    destruct (handle e s) as [[[[] s1] eff1]|] eqn:He; [|discriminate].
    destruct (process evs s1) as [[[[] s2] eff2]|] eqn:Hevs; [|discriminate].
    injection Hrun as <- <-.
    destruct (handle_effects e s s1 eff1 He) as [Hk1 ->].
    destruct (IH s1 eff2 Hevs) as [Hk2 ->].
    rewrite Hk2, Hk1. split; [reflexivity|].
    rewrite (hookCalls_cons e evs). destruct (ConnState s); reflexivity.
Qed.

Lemma hook_sees_every_transition_witness :
  let s := {| Server := Server New; ConnState := true; listener := listener New;
              wg := 0; idleConns := ∅ |} in
  let evs := [Transition 1 StateNew; Started; Transition 1 StateActive;
              Transition 1 StateIdle; Finished; Transition 1 StateClosed]%positive in
  exists s', process evs s
             = Returns (tt, s', [UserConnState 1 StateNew; UserConnState 1 StateActive;
                                 UserConnState 1 StateIdle;
                                 UserConnState 1 StateClosed]%positive).
Proof.
  intros s evs.
  destruct (process evs s) as [[[[] s'] eff]|] eqn:Hrun; [|vm_compute in Hrun; discriminate].
  destruct (hook_sees_every_transition evs s s' eff Hrun) as [_ ->].
  exists s'. reflexivity.
Defined.




(** *** Sequences of calls of the API *)

Lemma closesFollowBinds_app (b : bool) (e1 e2 : list Effect) :
  closesFollowBinds b (e1 ++ e2)
  = closesFollowBinds b e1 && closesFollowBinds (pendingBind b e1) e2.
Proof.
  revert b. induction e1 as [|x e1 IH]; intros b; [reflexivity|].
  destruct x; cbn; rewrite ?IH; try reflexivity.
  destruct b; reflexivity.
Qed.

Lemma pendingBind_app (b : bool) (e1 e2 : list Effect) :
  pendingBind b (e1 ++ e2) = pendingBind (pendingBind b e1) e2.
Proof.
  revert b. induction e1 as [|x e1 IH]; intros b; [reflexivity|].
  destruct x; cbn; apply IH.
Qed.

Lemma listeningAfter_cons (b : bool) (a : Api) (cs : list Api) :
  listeningAfter b (a :: cs) = listeningAfter (listeningAfter b [a]) cs.
Proof. destruct a as [addr [e|]| | |]; reflexivity. Qed.

(** What one call of the API does to the flag, to the wrapped listener and
    to keep-alives. *)
Lemma api_run (a : Api) (s s1 : WebServer) (eff : list Effect) :
  wf (listener s) ->
  api a s = Returns (tt, s1, eff) ->
  isListening (listener s1) = listeningAfter (isListening (listener s)) [a]
  /\ (forall b, (isListening (listener s) = true -> b = true) ->
        closesFollowBinds b eff = true
        /\ (isListening (listener s1) = true -> pendingBind b eff = true))
  /\ (keepAlives (Server s) = false -> keepAlives (Server s1) = false)
  /\ count isKeepAlivesOn eff = 0%nat.
Proof.
  intros Hwf Ha. destruct a as [addr bindErr| |closeErr|e]; cbn [api] in Ha.
  - unfold bind in Ha. destruct (isListening (listener s)) eqn:Hl.
    + rewrite (Listen_listening s addr bindErr Hl) in Ha.
      injection Ha as <- <-. rewrite Hl. cbn.
      repeat split; auto. destruct bindErr; reflexivity.
    + destruct bindErr as [e|].
      * rewrite (Listen_bind_fails s addr e Hl) in Ha.
        injection Ha as <- <-. rewrite Hl. cbn. repeat split; auto.
      * rewrite (Listen_binds s addr Hl) in Ha.
        injection Ha as <- <-. cbn. repeat split; auto.
  - unfold bind in Ha. destruct (isListening (listener s)) eqn:Hl.
    + rewrite (Serve_listening s Hl) in Ha. injection Ha as <- <-.
      cbn. rewrite Hl. repeat split; auto.
    + rewrite (Serve_not_listening s Hl) in Ha. injection Ha as <- <-.
      cbn. rewrite Hl. repeat split; auto.
  - destruct (isListening (listener s)) eqn:Hl.
    + destruct (Listener (listener s)) as [n|] eqn:Hn;
        [|exfalso; apply (Hwf Hl), Hn].
      rewrite (Shutdown_listening s n closeErr Hn Hl) in Ha.
      injection Ha as <- <-. cbn. repeat split; auto; try discriminate.
      rewrite (H eq_refl). reflexivity.
    + rewrite (Shutdown_not_listening s closeErr Hl) in Ha.
      injection Ha as <- <-. cbn. rewrite Hl. repeat split; auto.
  - destruct (handle_frame e s s1 eff Ha) as (Hls & Hsrv & _).
    destruct (handle_effects e s s1 eff Ha) as (_ & ->).
    rewrite Hls, Hsrv. cbn [listeningAfter].
    assert (Hlog : forall b, closesFollowBinds b (if ConnState s then hookCalls [e] else []) = true
                  /\ pendingBind b (if ConnState s then hookCalls [e] else []) = b
                  /\ count isKeepAlivesOn (if ConnState s then hookCalls [e] else []) = 0%nat).
    { intros b. destruct (ConnState s), e; cbn; auto. }
    split; [reflexivity|]. split; [|split; [auto|apply (Hlog true)]].
    intros b Hb. destruct (Hlog b) as (Hc & Hp & _). split; [exact Hc|].
    intros Hl. rewrite Hp. auto.
Qed.

(** A run of calls, from a server with a well formed listener. *)
Lemma calls_run (cs : list Api) :
  forall (s s' : WebServer) (eff : list Effect) (b : bool),
    wf (listener s) ->
    (isListening (listener s) = true -> b = true) ->
    calls cs s = Returns (tt, s', eff) ->
    wf (listener s')
    /\ isListening (listener s') = listeningAfter (isListening (listener s)) cs
    /\ closesFollowBinds b eff = true
    /\ (keepAlives (Server s) = false ->
        keepAlives (Server s') = false /\ count isKeepAlivesOn eff = 0%nat).
Proof.
  induction cs as [|a cs IH]; intros s s' eff b Hwf Hb Hrun.
  - injection Hrun as <- <-. cbn. auto.
  - destruct (calls_cons a cs s s' eff Hrun) as (s1 & eff1 & eff2 & Ha & Hcs & ->).
    pose proof (api_wf a s s1 eff1 Hwf Ha) as Hwf1.
    destruct (api_run a s s1 eff1 Hwf Ha) as (Hl1 & Hlog & Hka & Hon).
    destruct (Hlog b Hb) as [Hc1 Hp1].
    destruct (IH s1 s' eff2 (pendingBind b eff1) Hwf1 Hp1 Hcs)
      as (Hwf' & Hl' & Hc2 & Hka2).
    split; [exact Hwf'|]. split.
    { rewrite Hl', Hl1, (listeningAfter_cons _ a cs). reflexivity. }
    split.
    { rewrite closesFollowBinds_app, Hc1, Hc2. reflexivity. }
    intros Hoff. destruct (Hka2 (Hka Hoff)) as [Hoff' Hon2].
    split; [exact Hoff'|]. rewrite count_app, Hon, Hon2. reflexivity.
Qed.

Lemma New_wf : wf (listener New).
Proof. intros Hl. discriminate. Qed.



(** X10. On every server that calls of the API build from [New()],
    [Shutdown] does not panic; and when [Serve] starts its goroutine the
    listener it hands to [s.Server.Serve] wraps a [net.Listener], so that
    no [Accept], [Close] or [Listening] on it panics. *)
Theorem accept_loop_has_a_listener (cs : list Api) (s : WebServer)
    (eff : list Effect) :
  calls cs New = Returns (tt, s, eff) ->
  (forall closeErr, Shutdown closeErr s <> Panics)
  /\ (result (Serve s) = Some None ->
      Listener (listener s) <> None
      /\ forall lc, callAll lc (listener s) <> Panics).
Proof.
  intros Hrun. pose proof (calls_wf cs New s eff New_wf Hrun) as Hwf. split.
  - intros closeErr. destruct (isListening (listener s)) eqn:Hl.
    + destruct (Listener (listener s)) as [n|] eqn:Hn;
        [|exfalso; apply (Hwf Hl), Hn].
      rewrite (Shutdown_listening s n closeErr Hn Hl). discriminate.
    + rewrite (Shutdown_not_listening s closeErr Hl). discriminate.
  - intros Hserve. destruct (isListening (listener s)) eqn:Hl.
    + pose proof (Hwf Hl) as Hn. split; [exact Hn|]. intros lc.
      destruct (callAll_effects lc (listener s) Hn) as (l' & e' & -> & _).
      discriminate.
    + rewrite (Serve_not_listening s Hl) in Hserve. discriminate.
Qed.

Lemma accept_loop_has_a_listener_witness :
  let cs := [ApiShutdown None; ApiListen ":44380" None; ApiEvent Started] in
  exists s eff,
    calls cs New = Returns (tt, s, eff)
    /\ result (Serve s) = Some None
    /\ Listener (listener s) <> None
    /\ callAll [CallAccept (None, Some (errorString "closed")); CallClose None]
         (listener s) <> Panics.
Proof.
  intros cs.
  destruct (calls cs New) as [[[[] s] eff]|] eqn:Hrun;
    [|vm_compute in Hrun; discriminate].
  assert (Hs : result (Serve s) = Some None).
  { vm_compute in Hrun. injection Hrun as <- _. reflexivity. }
  destruct (accept_loop_has_a_listener cs s eff Hrun) as (_ & Hloop).
  destruct (Hloop Hs) as [Hn Hcalls].
  exists s, eff. auto.
Defined.



(** X12. A second [Shutdown] does nothing: after a [Shutdown] the server
    is not listening, every later [Shutdown] returns without a call to the
    wrapped listener and leaves the server as it is, and [Serve] is refused
    until a new [Listen]. *)
Theorem Shutdown_twice (s : WebServer) (closeErr : option error) :
  wf (listener s) ->
  exists s1 eff1,
    Shutdown closeErr s = Returns (tt, s1, eff1)
    /\ isListening (listener s1) = false
    /\ (forall closeErr', Shutdown closeErr' s1 = Returns (tt, s1, []))
    /\ Serve s1 = Returns (Some errListenerNotYetCreated, s1, []).
Proof.
  intros Hwf. destruct (isListening (listener s)) eqn:Hl.
  - destruct (Listener (listener s)) as [n|] eqn:Hn;
      [|exfalso; apply (Hwf Hl), Hn].
    eexists _, _. split; [apply (Shutdown_listening s n closeErr Hn Hl)|].
    split; [reflexivity|]. split.
    + intros closeErr'. apply Shutdown_not_listening. reflexivity.
    + apply Serve_not_listening. reflexivity.
  - exists s, []. split; [apply (Shutdown_not_listening s closeErr Hl)|].
    split; [exact Hl|]. split.
    + intros closeErr'. apply (Shutdown_not_listening s closeErr' Hl).
    + apply (Serve_not_listening s Hl).
Qed.

Lemma Shutdown_twice_witness :
  let s := {| Server := set_Addr ":44380" (Server New); ConnState := false;
              listener := {| Listener := Some (mkNetListener "tcp" ":44380" false false);
                             listening := 1 |};
              wg := 2; idleConns := ∅ |} in
  exists s1 eff1,
    Shutdown None s = Returns (tt, s1, eff1)
    /\ isListening (listener s1) = false
    /\ (forall closeErr', Shutdown closeErr' s1 = Returns (tt, s1, []))
    /\ Serve s1 = Returns (Some errListenerNotYetCreated, s1, []).
Proof.
  intros s. apply (Shutdown_twice s None). intros _. discriminate.
Defined.

(** X13. The package never turns keep-alives back on: after a [Shutdown]
    of a listening server they are disabled, and they stay disabled over
    any later calls of the API, a new [Listen] and [Serve] included. *)
Theorem keepalives_stay_off (s s1 s' : WebServer) (closeErr : option error)
    (cs : list Api) (eff1 eff : list Effect) :
  wf (listener s) ->
  isListening (listener s) = true ->
  Shutdown closeErr s = Returns (tt, s1, eff1) ->
  calls cs s1 = Returns (tt, s', eff) ->
  keepAlives (Server s1) = false
  /\ keepAlives (Server s') = false
  /\ count isKeepAlivesOn (eff1 ++ eff) = 0%nat.
Proof.
  intros Hwf Hl Hshut Hrun.
  pose proof (api_wf (ApiShutdown closeErr) s s1 eff1 Hwf Hshut) as Hwf1.
  destruct (Listener (listener s)) as [n|] eqn:Hn;
    [|exfalso; apply (Hwf Hl), Hn].
  rewrite (Shutdown_listening s n closeErr Hn Hl) in Hshut.
  injection Hshut as <- <-. split; [reflexivity|].
  destruct (calls_run cs _ s' eff false Hwf1) as (_ & _ & _ & Hka);
    [discriminate|exact Hrun|].
  destruct (Hka eq_refl) as [Hoff Hon]. split; [exact Hoff|].
  rewrite count_app, Hon. reflexivity.
Qed.

Lemma keepalives_stay_off_witness :
  let s := {| Server := set_Addr ":44380" (Server New); ConnState := false;
              listener := {| Listener := Some (mkNetListener "tcp" ":44380" false false);
                             listening := 1 |};
              wg := 0; idleConns := ∅ |} in
  exists s1 eff1 s' eff,
    Shutdown None s = Returns (tt, s1, eff1)
    /\ calls [ApiListen ":44380" None; ApiServe] s1 = Returns (tt, s', eff)
    /\ isListening (listener s') = true
    /\ keepAlives (Server s') = false.
Proof.
  intros s.
  destruct (Shutdown None s) as [[[[] s1] eff1]|] eqn:Hshut;
    [|vm_compute in Hshut; discriminate].
  destruct (calls [ApiListen ":44380" None; ApiServe] s1) as [[[[] s'] eff]|] eqn:Hrun;
    [|vm_compute in Hshut; injection Hshut as <- _;
      vm_compute in Hrun; discriminate].
  assert (Hwf : wf (listener s)) by (intros _; discriminate).
  destruct (keepalives_stay_off s s1 s' None _ eff1 eff Hwf eq_refl Hshut Hrun)
    as (_ & Hoff & _).
  exists s1, eff1, s', eff. split; [reflexivity|]. split; [exact Hrun|].
  split; [|exact Hoff].
  vm_compute in Hshut. injection Hshut as <- _.
  vm_compute in Hrun. injection Hrun as <- _. reflexivity.
Defined.

Lemma In_ownSteps (a : Step) (l : list Step) :
  In a l -> own a = true -> In a (ownSteps l).
Proof.
  intros Hin Hown. induction l as [|x l IH]; [exact Hin|].
  cbn. destruct Hin as [->|Hin].
  - rewrite Hown. left. reflexivity.
  - destruct (own x); [right|]; apply IH, Hin.
Qed.

(** X14. The outcome is graceful exactly when the listener was shut down.
    Take a listening server and an accept of the wrapped listener that
    fails with a plain error [e].  If [s.Server.Serve] returns what
    [Accept] returns before any [Shutdown], the goroutine of [Serve]
    delivers [e] itself and has not waited for the counter; if it returns
    what [Accept] returns after a [Shutdown], the goroutine delivers
    [ErrGracefulShutdown] around [ErrListenerClosed] around [e], after a
    wait that returned with the counter at zero. *)
Theorem graceful_exactly_after_Shutdown (s s1 : WebServer) (n : NetListener)
    (closeErr : option error) (eff1 : list Effect) (conn : option Conn)
    (e ret : error) (w : Z) (l : list Step) (g : AcceptLoop) :
  Listener (listener s) = Some n ->
  isListening (listener s) = true ->
  isErrListenerClosed e = false ->
  Shutdown closeErr s = Returns (tt, s1, eff1) ->
  steps l (started w) = Some g -> pc g = Returned ->
  In (ServeReturns ret) l ->
  (snd <$> result (Accept (conn, Some e) (listener s)) = Some (Some ret) ->
   errChan g = [e] /\ ~ In WaitReturns l)
  /\ (snd <$> result (Accept (conn, Some e) (listener s1)) = Some (Some ret) ->
      errChan g = [ErrGracefulShutdown (ErrListenerClosed e)]
      /\ waitedForZero w l).
Proof.
  intros Hn Hl He Hshut Hsteps Hpc Hin.
  pose proof (loopInv_steps w l g Hsteps) as Hinv. unfold loopInv in Hinv.
  rewrite Hpc in Hinv. destruct Hinv as (e0 & Hchan & Hrest).
  assert (Hret : ret = e0).
  { pose proof (In_ownSteps _ l Hin eq_refl) as Hown.
    destruct (isErrListenerClosed e0); [destruct Hrest as [Hrest _]|];
      rewrite Hrest in Hown; cbn in Hown;
      repeat (destruct Hown as [Hown|Hown]; try discriminate; try contradiction);
      congruence. }
  subst e0. split.
  - rewrite (Accept_run (listener s) n conn (Some e) Hn), Hl. cbn.
    intros Heq. injection Heq as <-. rewrite Hchan. unfold outcome.
    rewrite He in *. split; [reflexivity|].
    intros Hw. pose proof (In_ownSteps _ l Hw eq_refl) as Hown.
    rewrite Hrest in Hown. cbn in Hown.
    repeat (destruct Hown as [Hown|Hown]; try discriminate; try contradiction).
  - rewrite (Shutdown_listening s n closeErr Hn Hl) in Hshut.
    injection Hshut as <- _. cbn [listener].
    rewrite (Accept_run {| Listener := Some (set_closed n); listening := 0 |}
               (set_closed n) conn (Some e) eq_refl). cbn.
    intros Heq. injection Heq as <-. rewrite Hchan. cbn in Hrest.
    split; [reflexivity|apply Hrest].
Qed.

Lemma graceful_exactly_after_Shutdown_witness :
  let s := {| Server := set_Addr ":44380" (Server New); ConnState := false;
              listener := {| Listener := Some (mkNetListener "tcp" ":44380" false false);
                             listening := 1 |};
              wg := 1; idleConns := ∅ |} in
  let e := errorString "use of closed network connection" in
  let l := [ServeReturns (ErrListenerClosed e); Elsewhere 0; WaitReturns; Received] in
  exists g, steps l (started 1) = Some g
            /\ errChan g = [ErrGracefulShutdown (ErrListenerClosed e)]
            /\ waitedForZero 1 l.
Proof.
  intros s e l.
  destruct (steps l (started 1)) as [g|] eqn:Hg; [|discriminate].
  assert (Hpc : pc g = Returned) by (injection Hg as <-; reflexivity).
  destruct (graceful_exactly_after_Shutdown s _ (mkNetListener "tcp" ":44380" false false)
              None _ None e (ErrListenerClosed e) 1 l g
              eq_refl eq_refl eq_refl eq_refl Hg Hpc (or_introl eq_refl))
    as [_ Hafter].
  exists g. split; [reflexivity|]. apply Hafter. reflexivity.
Defined.

(** The counter after some steps is the one at the start or one that
    another goroutine has set. *)
Lemma wgNow_steps (l : list Step) (g0 g : AcceptLoop) :
  steps l g0 = Some g ->
  wgNow g = wgNow g0 \/ In (Elsewhere (wgNow g)) l.
Proof.
  revert g0. induction l as [|a l IH]; intros g0 Hl.
  - injection Hl as <-. left. reflexivity.
  - cbn in Hl. destruct (step a g0) as [g1|] eqn:Ha; [|discriminate].
    destruct (IH g1 Hl) as [Hsame|Hin]; [|right; right; exact Hin].
    rewrite Hsame. unfold step in Ha.
    destruct a as [e| | |m], (pc g0); try discriminate;
      repeat match type of Ha with
             | (if ?c then _ else _) = _ => destruct c eqn:?; try discriminate
             | match ?c with _ => _ end = _ => destruct c eqn:?; try discriminate
             end;
      injection Ha as <-; cbn; auto.
Qed.

(** X15. While work is pending nothing is reported: when [s.Server.Serve]
    has returned an [ErrListenerClosed] and the counter has been positive
    at the start and every time it was moved, the goroutine of [Serve] has
    delivered nothing on the channel and has not come to its end. *)
Theorem nothing_delivered_while_pending (w : Z) (l : list Step) (g : AcceptLoop)
    (e : error) :
  steps l (started w) = Some g ->
  0 < w ->
  (forall n, In (Elsewhere n) l -> 0 < n) ->
  In (ServeReturns e) l ->
  isErrListenerClosed e = true ->
  errChan g = [] /\ pc g <> Returned.
Proof.
  intros Hsteps Hw Hpos Hin He.
  pose proof (loopInv_steps w l g Hsteps) as Hinv. unfold loopInv in Hinv.
  pose proof (In_ownSteps _ l Hin eq_refl) as Hown.
  destruct (pc g) eqn:Hpc.
  - destruct Hinv as (Hnone & _). rewrite Hnone in Hown. destruct Hown.
  - destruct Hinv as (e0 & _ & _ & _ & Hchan). split; [exact Hchan|discriminate].
  - destruct Hinv as (e0 & Hchan & _). split; [exact Hchan|discriminate].
  - exfalso. destruct Hinv as (e0 & _ & Hrest).
    assert (Hw0 : waitedForZero w l).
    { destruct (isErrListenerClosed e0) eqn:He0; [apply Hrest|].
      rewrite Hrest in Hown. cbn in Hown.
      destruct Hown as [Heq|[Heq|[]]]; [|discriminate].
      injection Heq as ->. congruence. }
    destruct Hw0 as (l1 & l2 & g1 & -> & Hg1 & Hz).
    destruct (wgNow_steps l1 (started w) g1 Hg1) as [Hsame|Hmoved].
    + cbn in Hsame. lia.
    + rewrite Hz in Hmoved.
      assert (0 < 0) by (apply Hpos, in_or_app; left; exact Hmoved). lia.
Qed.

Lemma nothing_delivered_while_pending_witness :
  let e := ErrListenerClosed (errorString "use of closed network connection") in
  let l := [Elsewhere 2; ServeReturns e; Elsewhere 1; Elsewhere 3] in
  exists g, steps l (started 1) = Some g /\ errChan g = [] /\ pc g <> Returned.
Proof.
  intros e l.
  destruct (steps l (started 1)) as [g|] eqn:Hg; [|discriminate].
  exists g. split; [reflexivity|].
  apply (nothing_delivered_while_pending 1 l g e Hg).
  - lia.
  - intros n Hin. cbn in Hin.
    repeat (destruct Hin as [Hin|Hin]; [try discriminate; injection Hin as <-; lia|]).
    destruct Hin.
  - right. left. reflexivity.
  - reflexivity.
Defined.

End Runs.
